(** * DES-MI: dynamic ensemble selection for multi-class imbalanced data

    A shallow embedding of [deslib/des/des_mi.py] (class [DESMI]) and the
    properties its specification states about it.

    Modelling conventions.
    - numpy float arrays are lists (rows of lists for two dimensions) of
      real numbers; arithmetic is the exact arithmetic of [R], so rounding
      is outside the model.  The overflow of [np.exp] is in it: beyond the
      largest float64 the exponential is [inf], and the weight computed
      from it is [0.0].  The only non-finite value that reaches a result,
      the [nan] of a division [0/0] or of the mean of an empty slice, is
      kept as a constructor of [npfloat].
    - integer arrays are lists of [Z] (labels, neighbour indices as the
      caller passes them) or of [nat] (counts and positions numpy itself
      produces).
    - a Python exception is [None] in the [option] monad.
    - [np.argsort] is a parameter of the methods that sort; [np_argsort]
      is the instance numpy's default kind gives on short rows. *)

From Stdlib Require Import String.
From Stdlib Require Import Reals Lra Lia List ZArith Bool.
From Stdlib Require Import Permutation Sorted.
Import ListNotations.

Set Implicit Arguments.

(** ** Exceptions as [option] *)

Definition bind {A B : Type} (m : option A) (k : A -> option B) : option B :=
  match m with
  | Some a => k a
  | None => None
  end.

Notation "x <- m ;; k" := (bind m (fun x => k))
  (at level 61, m at next level, right associativity).

Definition guard (b : bool) : option unit := if b then Some tt else None.

Fixpoint mapM {A B : Type} (f : A -> option B) (l : list A) : option (list B) :=
  match l with
  | [] => Some []
  | a :: l' => b <- f a ;; bs <- mapM f l' ;; Some (b :: bs)
  end.

(** ** numpy primitives *)

(** [a[i]] for an integer [i]: a negative index counts from the end, an
    index outside [-n, n) raises [IndexError]. *)
Definition np_index {A : Type} (a : list A) (i : Z) : option A :=
  let n := Z.of_nat (length a) in
  if (0 <=? i)%Z then nth_error a (Z.to_nat i)
  else if (- n <=? i)%Z then nth_error a (Z.to_nat (n + i))
  else None.

(** [a[idx]] for a two-dimensional integer index array [idx]. *)
Definition np_take {A : Type} (a : list A) (idx : list (list Z))
  : option (list (list A)) :=
  mapM (mapM (np_index a)) idx.

(** [np.bincount(x)]: one count per value in [0 .. max(x)]; a negative
    entry raises [ValueError]. *)
Definition bincount (x : list Z) : option (list nat) :=
  _ <- guard (forallb (fun v => (0 <=? v)%Z) x) ;;
  let top := fold_right Z.max (-1)%Z x in
  Some (map (fun c => count_occ Z.eq_dec x (Z.of_nat c))
            (seq 0 (Z.to_nat (top + 1)))).

(** Second dimension of a two-dimensional array. *)
Definition ncols {A : Type} (m : list (list A)) : nat :=
  match m with
  | [] => 0
  | r :: _ => length r
  end.

Fixpoint zip_with {A B C : Type} (f : A -> B -> C) (xs : list A) (ys : list B)
  : list C :=
  match xs, ys with
  | x :: xs', y :: ys' => f x y :: zip_with f xs' ys'
  | _, _ => []
  end.

(** numpy broadcasting along one axis: equal lengths pair up, a length-one
    operand is repeated, anything else is a shape error. *)
Definition broadcast {A B C : Type} (f : A -> B -> option C)
    (xs : list A) (ys : list B) : option (list C) :=
  match xs, ys with
  | [x], _ => mapM (fun y => f x y) ys
  | _, [y] => mapM (fun x => f x y) xs
  | _, _ =>
      _ <- guard (length xs =? length ys) ;;
      mapM (fun p => f (fst p) (snd p)) (combine xs ys)
  end.

Open Scope R_scope.

Definition Rsum (l : list R) : R := fold_right Rplus 0 l.

(** [np.sum(a, axis=0)] of a list of rows of width [c]. *)
Definition sum_rows (c : nat) (rows : list (list R)) : list R :=
  fold_right (zip_with Rplus) (repeat 0 c) rows.

Definition b2r (b : bool) : R := if b then 1 else 0.

(** ** sklearn.preprocessing.normalize, norm='l1', axis=1 *)

Definition l1_norm (x : list R) : R := Rsum (map Rabs x).

(** [_handle_zeros_in_scale]: a zero norm is replaced by one, so a row of
    zeros stays a row of zeros.  This is the guard of the scikit-learn
    releases the module was written for; from release 1.0 on the guard
    also replaces a norm below [10 * eps] ([guard_margin] below), and the
    properties that need a row to be divided by its norm assume the norm
    is at least that. *)
Definition handle_zeros_in_scale (s : R) : R :=
  if Req_dec_T s 0 then 1 else s.

Definition normalize_row (x : list R) : list R :=
  let s := handle_zeros_in_scale (l1_norm x) in
  map (fun v => v / s) x.

(** [check_array] rejects an array with no row or no column. *)
Definition normalize (X : list (list R)) : option (list (list R)) :=
  _ <- guard (negb (length X =? 0)%nat && negb (ncols X =? 0)%nat) ;;
  Some (map normalize_row X).

(** ** The estimator *)

(** A Python number as [alpha] can hold it. *)
Inductive pynum : Type :=
| PyFloat (r : R)
| PyInt (z : Z).

Definition pyval (x : pynum) : R :=
  match x with
  | PyFloat r => r
  | PyInt z => IZR z
  end.

Definition is_float (x : pynum) : bool :=
  match x with
  | PyFloat _ => true
  | PyInt _ => false
  end.

(** The attributes of a [DESMI] instance the methods read.  [N_] is absent
    until [_validate_parameters] has stored it. *)
Record DESMI : Type := mkDESMI {
  DSEL_target_ : list Z;
  DSEL_processed_ : list (list bool);
  k_ : nat;
  n_classifiers_ : nat;
  n_classes_ : nat;
  pct_accuracy : R;
  alpha : pynum;
  voting : string;
  DFP : bool;
  N_ : option Z
}.

(** *** estimate_competence *)

(** The largest finite float64, [(2 - 2^-52) * 2^1023]: beyond it [np.exp]
    returns [inf], with a warning and no exception. *)
Definition float_max : R := (2 - / 2 ^ 52) * 2 ^ 1023.

(** Lines 164-167: the raw weight of every neighbour.  Where [np.exp]
    overflows, [1 + inf] is [inf] and [1. / inf] is [0.0]. *)
Definition raw_weight (self : DESMI) (num : nat) : R :=
  let x := pyval (alpha self) * INR num in
  if Rlt_dec float_max (exp x) then 0 else 1 / (1 + exp x).

(** Lines 164-168: the normalised weights, one row per query sample. *)
Definition neighbor_weights (self : DESMI) (competence_region : list (list Z))
  : option (list (list R)) :=
  class_frequency <- bincount (DSEL_target_ self) ;;
  targets <- np_take (DSEL_target_ self) competence_region ;;
  num <- np_take class_frequency targets ;;
  let weight := map (map (raw_weight self)) num in
  normalize weight.

(** Lines 170-173: the array [correct] is filled and never read, but the
    indexing and the assignment still check the shapes. *)
Definition correct_loop_ok (self : DESMI) (competence_region : list (list Z))
  : bool :=
  (n_classifiers_ self =? 0)%nat
  || ((n_classifiers_ self <=? ncols (DSEL_processed_ self))%nat
      && ((ncols competence_region =? k_ self)%nat
          || (ncols competence_region =? 1)%nat)).

(** Lines 176-179 for one sample: scale the neighbours' correctness rows by
    their weights and sum over the neighbours. *)
Definition competence_row (c : nat) (correct_num : list (list bool))
    (weight : list R) : list R :=
  sum_rows c
    (zip_with (fun row w => map (fun b => b2r b * w) row) correct_num weight).

Definition estimate_competence (self : DESMI)
    (competence_region : list (list Z))
    (distances : option (list (list R)))
    (predictions : option (list (list Z))) : option (list (list R)) :=
  weight <- neighbor_weights self competence_region ;;
  correct_num <- np_take (DSEL_processed_ self) competence_region ;;
  _ <- guard (correct_loop_ok self competence_region) ;;
  Some (zip_with (competence_row (ncols (DSEL_processed_ self)))
                 correct_num weight).

(** *** select *)

(** The argument of [select]: a vector or a matrix of competences. *)
Inductive ndarray : Type :=
| Arr1 (v : list R)
| Arr2 (m : list (list R)).

(** [competences.reshape(1, -1)] when [ndim < 2]. *)
Definition as_matrix (competences : ndarray) : list (list R) :=
  match competences with
  | Arr1 v => [v]
  | Arr2 m => m
  end.

(** The Python slice [l[0:stop]]; a negative [stop] counts from the end. *)
Definition slice_to {A : Type} (stop : Z) (l : list A) : list A :=
  let n := Z.of_nat (length l) in
  firstn (Z.to_nat (if (stop <? 0)%Z then n + stop else stop)) l.

Section Selection.

(** [np.argsort] along the last axis, for one row. *)
Variable argsort : list R -> list nat.

Definition select (self : DESMI) (competences : ndarray)
  : option (list (list nat)) :=
  let competences := as_matrix competences in
  let selected_classifiers := map argsort competences in
  stop <- N_ self ;;
  Some (map (fun row => slice_to stop (rev row)) selected_classifiers).

End Selection.

(** numpy's default [kind='quicksort'] on a short row (16 entries or fewer)
    is its closing insertion sort: each index in turn moves left past the
    indices whose value is strictly greater.  [rp] is the sorted prefix,
    last position first. *)
Fixpoint insert_from_right (v : list R) (i : nat) (rp : list nat) : list nat :=
  match rp with
  | [] => [i]
  | pk :: rest =>
      if Rlt_dec (nth i v 0) (nth pk v 0)
      then pk :: insert_from_right v i rest
      else i :: rp
  end.

Definition np_argsort (v : list R) : list nat :=
  rev (fold_left (fun rp i => insert_from_right v i rp) (seq 0 (length v)) []).

(** *** predict_proba_with_ds and classify_with_ds *)

(** A float64 of the result: a real number or [nan]. *)
Inductive npfloat : Type :=
| Fin (r : R)
| NaN.

(** [a * b] for two matrices, with broadcasting on both axes. *)
Definition np_mul2 (a b : list (list R)) : option (list (list R)) :=
  broadcast (broadcast (fun x y => Some (x * y))) a b.

(** [a[np.arange(a.shape[0])[:, None], selected]]: row [s] of [a] read at
    the positions of row [s] of [selected], the two row counts broadcast. *)
Definition take_selected {A : Type} (a : list (list A))
    (selected : list (list nat)) : option (list (list A)) :=
  broadcast (fun row sel => mapM (nth_error row) sel) a selected.

(** Modelled from the spec: [sum_votes_per_class] of
    [deslib.util.aggregation] is not part of the sources at hand; it
    tallies votes per class, a per-sample histogram over [n_classes], so a
    label outside [0, n_classes) is counted nowhere. *)
Definition sum_votes_per_class (votes : list (list Z)) (n_classes : nat)
  : list (list nat) :=
  map (fun row =>
         map (fun label => count_occ Z.eq_dec row (Z.of_nat label))
             (seq 0 n_classes))
      votes.

(** [a / b] on two counts.  The divisor below is the sum of the counts, so
    a positive count over zero does not arise and [0 / 0] is [nan]. *)
Definition np_true_divide (a b : nat) : npfloat :=
  if (b =? 0)%nat then NaN else Fin (INR a / INR b).

(** Line 289 for one sample. *)
Definition vote_proba (votes : list nat) : list npfloat :=
  let total := fold_right Nat.add 0%nat votes in
  map (fun v => np_true_divide v total) votes.

(** [np.mean(a, axis=0)] of a list of rows of width [c]; the mean of no
    row is [nan]. *)
Definition np_mean (c : nat) (rows : list (list R)) : list npfloat :=
  if (length rows =? 0)%nat then repeat NaN c
  else map (fun s => Fin (s / INR (length rows))) (sum_rows c rows).

(** Third dimension of a three-dimensional array. *)
Definition ncols3 {A : Type} (a : list (list (list A))) : nat :=
  match a with
  | [] => 0
  | m :: _ => ncols m
  end.

(** [proba.argmax(axis=1)] for one row: the scan keeps the first entry no
    later one exceeds and stops at the first [nan]; an empty row raises
    [ValueError]. *)
Definition np_le (a b : npfloat) : bool :=
  match a, b with
  | Fin x, Fin y => if Rle_dec x y then true else false
  | _, _ => false
  end.

Fixpoint argmax_from (mp : npfloat) (max_ind i : nat) (l : list npfloat)
  : nat :=
  match mp with
  | NaN => max_ind
  | Fin _ =>
      match l with
      | [] => max_ind
      | x :: l' =>
          if np_le x mp then argmax_from mp max_ind (S i) l'
          else argmax_from x i (S i) l'
      end
  end.

Definition np_argmax (row : list npfloat) : option nat :=
  match row with
  | [] => None
  | x :: l => Some (argmax_from x 0 1 l)
  end.

Section Prediction.

Variable argsort : list R -> list nat.

(** Lines 277-282: the competences, masked when [DFP] is set. *)
Definition masked_competence (self : DESMI)
    (competence_region : list (list Z))
    (distances : option (list (list R)))
    (DFP_mask : option (list (list R))) : option (list (list R)) :=
  accuracy <- estimate_competence self competence_region distances None ;;
  if DFP self
  then mask <- DFP_mask ;; np_mul2 accuracy mask
  else Some accuracy.

(** Lines 277-284. *)
Definition selected_classifiers (self : DESMI)
    (competence_region : list (list Z))
    (distances : option (list (list R)))
    (DFP_mask : option (list (list R))) : option (list (list nat)) :=
  accuracy <- masked_competence self competence_region distances DFP_mask ;;
  select argsort self (Arr2 accuracy).

(** Lines 286-289. *)
Definition hard_vote (self : DESMI) (predictions : option (list (list Z)))
    (selected : list (list nat)) : option (list (list npfloat)) :=
  predictions <- predictions ;;
  votes <- take_selected predictions selected ;;
  let votes := sum_votes_per_class votes (n_classes_ self) in
  Some (map vote_proba votes).

(** Lines 292-296. *)
Definition soft_vote (probabilities : option (list (list (list R))))
    (selected : list (list nat)) : option (list (list npfloat)) :=
  probabilities <- probabilities ;;
  ensemble_proba <- take_selected probabilities selected ;;
  Some (map (np_mean (ncols3 probabilities)) ensemble_proba).

Definition predict_proba_with_ds (self : DESMI)
    (predictions : option (list (list Z)))
    (probabilities : option (list (list (list R))))
    (competence_region : list (list Z))
    (distances : option (list (list R)))
    (DFP_mask : option (list (list R))) : option (list (list npfloat)) :=
  selected <- selected_classifiers self competence_region distances
                DFP_mask ;;
  if String.eqb (voting self) "hard"
  then hard_vote self predictions selected
  else soft_vote probabilities selected.

Definition classify_with_ds (self : DESMI)
    (predictions : option (list (list Z)))
    (probabilities : option (list (list (list R))))
    (neighbors : list (list Z))
    (distances : option (list (list R)))
    (DFP_mask : option (list (list R))) : option (list nat) :=
  proba <- predict_proba_with_ds self predictions probabilities neighbors
             distances DFP_mask ;;
  mapM np_argmax proba.

End Prediction.

(** *** _validate_parameters *)

Inductive exn : Type :=
| ValueError
| TypeError
| UnsupportedCapability.

(** Python's [int] on a float: truncation towards zero. *)
Definition py_int (x : R) : Z :=
  if Rlt_dec x 0 then (- Zfloor (- x))%Z else Zfloor x.

Definition Rleb (x y : R) : bool := if Rle_dec x y then true else false.
Definition Rltb (x y : R) : bool := if Rlt_dec x y then true else false.

(** Modelled from the spec: [_check_predict_proba] of the base class is not
    part of the sources at hand; soft voting requires that the pool
    supports probability output and fails with UnsupportedCapability if
    not. *)
Definition _check_predict_proba (pool_has_proba : bool) : option exn :=
  if pool_has_proba then None else Some UnsupportedCapability.

(** The state after the call and the exception it raised, if any.
    [base_check] is what [super()._validate_parameters()] raised.  The
    base class is not part of the sources at hand: what its method writes
    to the estimator is left out, and the properties of this method speak
    of the outcome and of [N_] only. *)
Definition _validate_parameters (base_check : option exn)
    (pool_has_proba : bool) (self : DESMI) : DESMI * option exn :=
  match base_check with
  | Some e => (self, Some e)
  | None =>
      let n := py_int (INR (n_classifiers_ self) * pct_accuracy self) in
      let self :=
        mkDESMI (DSEL_target_ self) (DSEL_processed_ self) (k_ self)
                (n_classifiers_ self) (n_classes_ self) (pct_accuracy self)
                (alpha self) (voting self) (DFP self) (Some n) in
      if (n <=? 0)%Z then (self, Some ValueError)
      else if Rleb (pyval (alpha self)) 0 then (self, Some ValueError)
      else if negb (is_float (alpha self)) then (self, Some TypeError)
      else if Rleb (pct_accuracy self) 0 || Rltb 1 (pct_accuracy self)
      then (self, Some ValueError)
      else if negb (String.eqb (voting self) "soft"
                    || String.eqb (voting self) "hard")
      then (self, Some ValueError)
      else if String.eqb (voting self) "soft"
      then (self, _check_predict_proba pool_has_proba)
      else (self, None)
  end.

(** ** Vocabulary of the properties *)

(** *** Shapes *)

(** A list of rows is a numpy matrix when its rows have one length. *)
Definition rect {A : Type} (c : nat) (m : list (list A)) : Prop :=
  Forall (fun r => length r = c) m.

Definition is_matrix {A : Type} (m : list (list A)) : Prop := rect (ncols m) m.

(** [i] is a position of [a], counted from the start. *)
Definition valid_index {A : Type} (a : list A) (i : Z) : Prop :=
  (0 <= i < Z.of_nat (length a))%Z.

(** *** Competence *)


(** *** Selection *)

(** [R] holds between any two entries of [l], the earlier one first. *)
Definition pairwise (R : nat -> nat -> Prop) (l : list nat) : Prop :=
  forall p q, (p < q < length l)%nat -> R (nth p l 0%nat) (nth q l 0%nat).

(** The contract of [np.argsort] on a row: the indices of the row, in an
    order that makes the values ascend. *)
Definition argsort_spec (argsort : list R -> list nat) : Prop :=
  forall v,
    Permutation (argsort v) (seq 0 (length v)) /\
    pairwise (fun i j => nth i v 0 <= nth j v 0) (argsort v).

(** A stable sort keeps tied entries in index order. *)
Definition argsort_stable (argsort : list R -> list nat) : Prop :=
  forall v,
    pairwise (fun i j => nth i v 0 = nth j v 0 -> (i < j)%nat) (argsort v).

(** The order numpy's insertion sort keeps in its sorted prefix, read from
    the last position: [a] sits before [b]. *)
Definition sits_before (v : list R) (a b : nat) : Prop :=
  nth b v 0 < nth a v 0 \/ (nth b v 0 = nth a v 0 /\ (b < a)%nat).

(** The reference computation of the selection: argsort, reverse, keep the
    first [n]. *)
Definition select_reference (argsort : list R -> list nat) (n : nat)
    (row : list R) : list nat :=
  firstn n (rev (argsort row)).

(** [chosen] holds [n] distinct columns of [row], by descending value, and
    no column left out has a larger value than a chosen one. *)
Definition top_selection (n : nat) (row : list R) (chosen : list nat) : Prop :=
  length chosen = n /\
  NoDup chosen /\
  Forall (fun i => (i < length row)%nat) chosen /\
  pairwise (fun i j => nth j row 0 <= nth i row 0) chosen /\
  forall i j, In i chosen -> (j < length row)%nat -> ~ In j chosen ->
              nth j row 0 <= nth i row 0.

(** Tied columns in ascending, respectively descending, index order. *)
Definition ties_lowest_first (row : list R) (chosen : list nat) : Prop :=
  pairwise (fun i j => nth i row 0 = nth j row 0 -> (i < j)%nat) chosen.

Definition ties_highest_first (row : list R) (chosen : list nat) : Prop :=
  pairwise (fun i j => nth i row 0 = nth j row 0 -> (j < i)%nat) chosen.

(** *** Aggregation *)

(** Sum of a row of the result: [nan] propagates. *)
Definition npadd (a b : npfloat) : npfloat :=
  match a, b with
  | Fin x, Fin y => Fin (x + y)
  | _, _ => NaN
  end.

Definition npsum (l : list npfloat) : npfloat := fold_right npadd (Fin 0) l.

(** Total vote count of a histogram. *)
Definition total (l : list nat) : nat := fold_right Nat.add 0%nat l.

Definition valid_label (n_classes : nat) (label : Z) : Prop :=
  (0 <= label < Z.of_nat n_classes)%Z.

(** A probability vector over [c] classes, as far as its sum goes. *)
Definition sums_to_one (c : nat) (vec : list R) : Prop :=
  length vec = c /\ Rsum vec = 1.

(** Hard voting reads labels the histogram has a bin for. *)
Definition selected_votes_valid (argsort : list R -> list nat) (self : DESMI)
    (predictions : option (list (list Z)))
    (competence_region : list (list Z))
    (distances : option (list (list R)))
    (DFP_mask : option (list (list R))) : Prop :=
  forall P selected votes,
    predictions = Some P ->
    selected_classifiers argsort self competence_region distances DFP_mask
      = Some selected ->
    take_selected P selected = Some votes ->
    Forall (Forall (valid_label (n_classes_ self))) votes.

(** Soft voting reads probability vectors that sum to one. *)
Definition probabilities_valid (probabilities : option (list (list (list R))))
  : Prop :=
  forall P, probabilities = Some P ->
            Forall (Forall (sums_to_one (ncols3 P))) P.

(** The order [np.max] and [np.argmax] use: [nan] is above every number. *)
Definition np_max_le (a b : npfloat) : Prop :=
  match a, b with
  | _, NaN => True
  | Fin x, Fin y => x <= y
  | NaN, Fin _ => False
  end.

(** [label] is the first position of [row] that holds its maximum. *)
Definition first_maximum (row : list npfloat) (label : nat) : Prop :=
  (label < length row)%nat /\
  (forall j, (j < length row)%nat ->
             np_max_le (nth j row NaN) (nth label row NaN)) /\
  (forall j, (j < label)%nat ->
             ~ np_max_le (nth label row NaN) (nth j row NaN)).

(** *** Pruning *)

Definition Reqb (x y : R) : bool := if Req_dec_T x y then true else false.

(** Classifiers the mask keeps, and those it keeps that also have a
    positive competence. *)
Definition count_unmasked (mask : list R) : nat :=
  length (filter (fun i => Reqb (nth i mask 0) 1) (seq 0 (length mask))).

Definition eligible (competence mask : list R) (i : nat) : bool :=
  Reqb (nth i mask 0) 1 && Rltb 0 (nth i competence 0).

Definition count_eligible (competence mask : list R) : nat :=
  length (filter (eligible competence mask) (seq 0 (length competence))).

(** Column [i] of [row] holds a positive value. *)
Definition positive_at (row : list R) (i : nat) : bool := Rltb 0 (nth i row 0).

(** No classifier with a zero mask entry is among [chosen]. *)
Definition excludes_pruned (mask : list R) (chosen : list nat) : Prop :=
  forall j, (j < length mask)%nat -> nth j mask 0 = 0 -> ~ In j chosen.

(** *** Parameter validation *)

(** The selection size of the specification, [floor(n_classifiers *
    pct_accuracy)]. *)
Definition selection_size (self : DESMI) : Z :=
  Zfloor (INR (n_classifiers_ self) * pct_accuracy self).


(** *** Frequencies, counts and histograms *)

(** Lines 164-166: the class frequency of every neighbour. *)
Definition neighbor_frequencies (self : DESMI)
    (competence_region : list (list Z)) : option (list (list nat)) :=
  class_frequency <- bincount (DSEL_target_ self) ;;
  targets <- np_take (DSEL_target_ self) competence_region ;;
  np_take class_frequency targets.

(** The smallest norm every release of scikit-learn divides by: ten times
    the float64 machine epsilon [2^-52]. *)
Definition guard_margin : R := 10 * / 2 ^ 52.

(** The raw weights of a sample whose neighbours come from classes of the
    frequencies [freqs] have a norm [normalize] divides by. *)
Definition rescaled (self : DESMI) (freqs : list nat) : Prop :=
  guard_margin <= Rsum (map (raw_weight self) freqs).

(** Number of neighbours of a sample that classifier [j] gets right. *)
Definition correct_count (j : nat) (flags : list (list bool)) : nat :=
  length (filter (fun row => nth j row false) flags).

(** The histogram [sum_votes_per_class] builds for one sample. *)
Definition histogram (n_classes : nat) (votes : list Z) : list nat :=
  map (fun label => count_occ Z.eq_dec votes (Z.of_nat label))
      (seq 0 n_classes).

Definition valid_labelb (n_classes : nat) (label : Z) : bool :=
  ((0 <=? label) && (label <? Z.of_nat n_classes))%Z.

(** Number of votes that fall in [0, n_classes). *)
Definition votes_in_range (n_classes : nat) (votes : list Z) : nat :=
  length (filter (valid_labelb n_classes) votes).

(** [label] is the first class with the most votes. *)
Definition plurality (counts : list nat) (label : nat) : Prop :=
  (label < length counts)%nat /\
  (forall j, (j < length counts)%nat ->
             (nth j counts 0 <= nth label counts 0)%nat) /\
  (forall j, (j < label)%nat -> (nth j counts 0 < nth label counts 0)%nat).

(** [i'] names the position [i] of an array of [n] entries, from the start
    or from the end. *)
Definition same_position (n : nat) (i i' : Z) : Prop :=
  (0 <= i < Z.of_nat n)%Z /\ (i' = i \/ i' = i - Z.of_nat n)%Z.

(** ** Example estimators *)

(** The estimator of the specification's worked scenario: three
    classifiers, two classes, DSEL labels [0,0,0,1]. *)
Definition demo : DESMI :=
  {| DSEL_target_ := [0; 0; 0; 1]%Z;
     DSEL_processed_ := [[true; false; true]; [true; true; false];
                         [false; true; true]; [false; false; true]];
     k_ := 2; n_classifiers_ := 3; n_classes_ := 2;
     pct_accuracy := 67 / 100; alpha := PyFloat (9 / 10);
     voting := "hard"; DFP := false; N_ := Some 2%Z |}.

(** Two DSEL samples of different classes, two classifiers that are right
    on both, both to be selected. *)
Definition duo (vote : string) : DESMI :=
  {| DSEL_target_ := [0; 1]%Z;
     DSEL_processed_ := [[true; true]; [true; true]];
     k_ := 2; n_classifiers_ := 2; n_classes_ := 2;
     pct_accuracy := 1; alpha := PyFloat (9 / 10);
     voting := vote; DFP := false; N_ := Some 2%Z |}.

(** The same DSEL with two classifiers that are wrong on both samples,
    pruning on, one classifier to select. *)
Definition pruned : DESMI :=
  {| DSEL_target_ := [0; 1]%Z;
     DSEL_processed_ := [[false; false]; [false; false]];
     k_ := 2; n_classifiers_ := 2; n_classes_ := 2;
     pct_accuracy := 1 / 2; alpha := PyFloat (9 / 10);
     voting := "hard"; DFP := true; N_ := Some 1%Z |}.

(** The same DSEL with two classifiers that are right on both samples,
    pruning on, one classifier to select. *)
Definition keen : DESMI :=
  {| DSEL_target_ := [0; 1]%Z;
     DSEL_processed_ := [[true; true]; [true; true]];
     k_ := 2; n_classifiers_ := 2; n_classes_ := 2;
     pct_accuracy := 1 / 2; alpha := PyFloat (9 / 10);
     voting := "hard"; DFP := true; N_ := Some 1%Z |}.

(** An estimator before its parameters are checked: ten classifiers, the
    default [pct_accuracy] of 0.4 and [k] of 7. *)
Definition configured (a : pynum) (vote : string) : DESMI :=
  {| DSEL_target_ := [0; 1]%Z;
     DSEL_processed_ := [repeat true 10; repeat true 10];
     k_ := 7; n_classifiers_ := 10; n_classes_ := 2;
     pct_accuracy := 4 / 10; alpha := a;
     voting := vote; DFP := false; N_ := None |}.

(** Two classes of 1200 DSEL samples each, the default [alpha], two
    classifiers that are right on every sample. *)
Definition crowded : DESMI :=
  {| DSEL_target_ := repeat 0%Z 1200 ++ repeat 1%Z 1200;
     DSEL_processed_ := repeat [true; true] 2400;
     k_ := 2; n_classifiers_ := 2; n_classes_ := 2;
     pct_accuracy := 1 / 2; alpha := PyFloat (9 / 10);
     voting := "hard"; DFP := false; N_ := Some 1%Z |}.

(** [demo] with a DSEL label below zero. *)
Definition mislabelled : DESMI :=
  {| DSEL_target_ := [0; -1; 0; 1]%Z;
     DSEL_processed_ := DSEL_processed_ demo;
     k_ := 2; n_classifiers_ := 3; n_classes_ := 2;
     pct_accuracy := 67 / 100; alpha := PyFloat (9 / 10);
     voting := "hard"; DFP := false; N_ := Some 2%Z |}.

(** [demo] told of two classifiers only, with another [pct_accuracy],
    voting mode and [N_]. *)
Definition narrowed : DESMI :=
  {| DSEL_target_ := DSEL_target_ demo;
     DSEL_processed_ := DSEL_processed_ demo;
     k_ := 2; n_classifiers_ := 2; n_classes_ := 2;
     pct_accuracy := 1 / 2; alpha := PyFloat (9 / 10);
     voting := "soft"; DFP := true; N_ := Some 1%Z |}.

(** * Properties *)

(** ** Inversion of the option monad *)

Lemma bind_Some {A B} (m : option A) (k : A -> option B) b :
  bind m k = Some b -> exists a, m = Some a /\ k a = Some b.
Proof. destruct m; simpl; intros H; [eauto | discriminate]. Qed.

Lemma guard_Some b u : guard b = Some u -> b = true.
Proof. destruct b; simpl; [reflexivity | discriminate]. Qed.

Ltac inv_bind H :=
  let x := fresh "x" in
  let E := fresh "E" in
  apply bind_Some in H; destruct H as (x & E & H).

Lemma mapM_Forall2 {A B} (f : A -> option B) l r :
  mapM f l = Some r <-> Forall2 (fun a b => f a = Some b) l r.
Proof.
  revert r; induction l as [|a l IH]; intros r; simpl.
  - split; intros H;
      [injection H as <-; constructor | inversion H; reflexivity].
  - split; intros H.
    + inv_bind H. inv_bind H. injection H as <-.
      constructor; [assumption | now apply IH].
    + inversion H as [|? b ? bs Hab Hrest]; subst.
      rewrite Hab; simpl. apply IH in Hrest. rewrite Hrest. reflexivity.
Qed.

Lemma Forall2_length_eq {A B} (P : A -> B -> Prop) l r :
  Forall2 P l r -> length l = length r.
Proof. induction 1; simpl; congruence. Qed.

Lemma Forall2_map_right {A B} (P : A -> B -> Prop) (f : A -> B) l :
  Forall (fun a => P a (f a)) l -> Forall2 P l (map f l).
Proof. induction 1; simpl; constructor; auto. Qed.

Lemma mapM_length {A B} (f : A -> option B) l r :
  mapM f l = Some r -> length r = length l.
Proof.
  intros H; apply mapM_Forall2 in H.
  symmetry; eapply Forall2_length_eq; eauto.
Qed.

(** Shape of a gather. *)
Lemma np_take_shape {A} (a : list A) idx r :
  np_take a idx = Some r ->
  Forall2 (fun i o => length o = length i) idx r.
Proof.
  unfold np_take; intros H. apply mapM_Forall2 in H.
  induction H; constructor; auto.
  eapply mapM_length; eauto.
Qed.

(** ** Neighbour weights *)

Lemma float_max_bounds : 2 ^ 1023 <= float_max < 2 ^ 1024.
Proof.
  unfold float_max.
  assert (Hp : 0 < 2 ^ 1023) by (apply pow_lt; lra).
  assert (Hq : 0 < / 2 ^ 52 <= 1).
  { split; [apply Rinv_0_lt_compat, pow_lt; lra|].
    rewrite <- Rinv_1. apply Rinv_le_contravar; [lra|].
    apply pow_R1_Rle. lra. }
  change (2 ^ 1024) with (2 * 2 ^ 1023).
  set (p := 2 ^ 1023) in *. set (q := / 2 ^ 52) in *. nra.
Qed.

Lemma guard_margin_bounds : 0 < guard_margin <= / 100000.
Proof.
  unfold guard_margin.
  assert (Hq : 0 < / 2 ^ 52 <= / 2 ^ 20).
  { split; [apply Rinv_0_lt_compat, pow_lt; lra|].
    apply Rinv_le_contravar; [apply pow_lt; lra|].
    apply Rle_pow; [lra | lia]. }
  assert (H20 : / 2 ^ 20 = / 1048576) by (f_equal; simpl; lra).
  rewrite H20 in Hq. set (q := / 2 ^ 52) in *. lra.
Qed.

Lemma exp_nat_bounds n : 2 ^ n <= exp (INR n) <= 3 ^ n.
Proof.
  induction n as [|n IH].
  - simpl. rewrite exp_0. lra.
  - rewrite S_INR, exp_plus. simpl pow.
    assert (2 <= exp 1) by (pose proof (exp_ineq1 1); lra).
    pose proof exp_le_3. pose proof (exp_pos (INR n)).
    assert (0 < 2 ^ n) by (apply pow_lt; lra).
    split; nra.
Qed.

Lemma exp_monotone x y : x <= y -> exp x <= exp y.
Proof.
  intros [H| ->]; [left; apply exp_increasing, H | right; reflexivity].
Qed.

(** Below 10 the exponential is far from overflowing, and the weight far
    above the margin. *)
Lemma exp_small x : x <= 10 -> exp x <= 59049 /\ exp x <= float_max.
Proof.
  intros H.
  assert (H3 : exp x <= 3 ^ 10).
  { apply Rle_trans with (exp (INR 10)); [|apply exp_nat_bounds].
    apply exp_monotone. simpl. lra. }
  assert (E : 3 ^ 10 = 59049) by (simpl; lra).
  rewrite E in H3. split; [exact H3|].
  apply Rle_trans with (2 ^ 1023); [|apply float_max_bounds].
  apply Rle_trans with (2 ^ 16); [simpl; lra|].
  apply Rle_pow; [lra | lia].
Qed.

(** From 1024 on it overflows. *)
Lemma exp_large x : 1024 <= x -> float_max < exp x.
Proof.
  intros H.
  apply Rlt_le_trans with (2 ^ 1024); [apply float_max_bounds|].
  apply Rle_trans with (exp (INR 1024)); [apply exp_nat_bounds|].
  apply exp_monotone. rewrite INR_IZR_INZ.
  change (Z.of_nat 1024) with 1024%Z. exact H.
Qed.

Lemma raw_weight_overflow self n :
  float_max < exp (pyval (alpha self) * INR n) -> raw_weight self n = 0.
Proof.
  intros H. unfold raw_weight. cbv zeta.
  destruct (Rlt_dec float_max (exp (pyval (alpha self) * INR n)));
    [reflexivity | contradiction].
Qed.

Lemma raw_weight_finite self n :
  exp (pyval (alpha self) * INR n) <= float_max ->
  raw_weight self n = 1 / (1 + exp (pyval (alpha self) * INR n)).
Proof.
  intros H. unfold raw_weight. cbv zeta.
  destruct (Rlt_dec float_max (exp (pyval (alpha self) * INR n)));
    [lra | reflexivity].
Qed.

Lemma raw_weight_nonneg self n : 0 <= raw_weight self n.
Proof.
  unfold raw_weight. cbv zeta.
  destruct (Rlt_dec float_max (exp (pyval (alpha self) * INR n)));
    [lra|].
  pose proof (exp_pos (pyval (alpha self) * INR n)).
  left. apply Rdiv_lt_0_compat; lra.
Qed.

Lemma raw_weight_pos self n :
  exp (pyval (alpha self) * INR n) <= float_max -> 0 < raw_weight self n.
Proof.
  intros H. rewrite (raw_weight_finite self n H).
  pose proof (exp_pos (pyval (alpha self) * INR n)).
  apply Rdiv_lt_0_compat; lra.
Qed.

Lemma raw_weights_nonneg self (freqs : list nat) :
  Forall (fun x => 0 <= x) (map (raw_weight self) freqs).
Proof. apply Forall_map, Forall_forall. intros; apply raw_weight_nonneg. Qed.

(** A neighbour with [alpha * class_frequency] up to 10 has a raw weight
    above the margin. *)
Lemma raw_weight_above_margin self n :
  pyval (alpha self) * INR n <= 10 ->
  0 < raw_weight self n /\ guard_margin <= raw_weight self n.
Proof.
  intros H. destruct (exp_small H) as [Hs Hf].
  rewrite (raw_weight_finite self n Hf).
  pose proof (exp_pos (pyval (alpha self) * INR n)) as Hp.
  pose proof guard_margin_bounds as Hg.
  assert (Hl : / 59050 <= 1 / (1 + exp (pyval (alpha self) * INR n))).
  { unfold Rdiv. rewrite Rmult_1_l.
    apply Rinv_le_contravar; lra. }
  assert (/ 100000 <= / 59050) by (apply Rinv_le_contravar; lra).
  assert (0 < / 59050) by (apply Rinv_0_lt_compat; lra).
  split; lra.
Qed.

Lemma Rsum_map_div l s : Rsum (map (fun v => v / s) l) = Rsum l / s.
Proof.
  unfold Rsum; induction l as [|x l IH]; simpl; [lra | rewrite IH; lra].
Qed.

Lemma Rsum_pos l : l <> [] -> Forall (fun x => 0 < x) l -> 0 < Rsum l.
Proof.
  intros Hne H; induction H as [|x l Hx Hl IH]; [congruence|].
  unfold Rsum in *; simpl. destruct l as [|y l]; simpl in *; [lra|].
  assert (0 < y + fold_right Rplus 0 l) by (apply IH; discriminate). lra.
Qed.

Lemma Rsum_nonneg l : Forall (fun x => 0 <= x) l -> 0 <= Rsum l.
Proof.
  unfold Rsum; induction 1 as [|x l Hx Hl IH]; simpl; lra.
Qed.

Lemma Rsum_ge_In l x :
  Forall (fun y => 0 <= y) l -> In x l -> x <= Rsum l.
Proof.
  induction 1 as [|y l Hy Hl IH]; simpl; [tauto|].
  pose proof (Rsum_nonneg Hl) as Hs. unfold Rsum in *. simpl.
  intros [->|Hin]; [lra|]. specialize (IH Hin). lra.
Qed.

Lemma Rsum_zero l :
  Forall (fun x => 0 <= x) l -> Rsum l = 0 -> Forall (fun x => x = 0) l.
Proof.
  induction 1 as [|x l Hx Hl IH]; intros Hs; constructor;
    pose proof (Rsum_nonneg Hl) as Hn; unfold Rsum in *; simpl in Hs.
  - lra.
  - apply IH. lra.
Qed.

Lemma l1_norm_nonneg l : Forall (fun x => 0 <= x) l -> l1_norm l = Rsum l.
Proof.
  unfold l1_norm, Rsum; induction 1 as [|x l Hx Hl IH]; simpl; [reflexivity|].
  rewrite IH, Rabs_pos_eq by lra. reflexivity.
Qed.

Lemma l1_norm_pos l : Forall (fun x => 0 < x) l -> l1_norm l = Rsum l.
Proof.
  intros H. apply l1_norm_nonneg.
  eapply Forall_impl; [|exact H]. simpl; intros; lra.
Qed.

(** A row of non-negative entries whose sum is not zero is divided by its
    sum. *)
Lemma normalize_row_explicit l :
  Forall (fun x => 0 <= x) l -> Rsum l <> 0 ->
  normalize_row l = map (fun v => v / Rsum l) l.
Proof.
  intros Hnn Hs. unfold normalize_row, handle_zeros_in_scale.
  rewrite l1_norm_nonneg by assumption.
  destruct (Req_dec_T (Rsum l) 0) as [E|E]; [contradiction | reflexivity].
Qed.

(** A row of zeros is left as it is. *)
Lemma normalize_row_zeros l :
  Forall (fun x => x = 0) l -> normalize_row l = l.
Proof.
  intros Hz.
  assert (Hnn : Forall (fun x => 0 <= x) l)
    by (eapply Forall_impl; [|exact Hz]; simpl; intros; lra).
  assert (Hs : Rsum l = 0).
  { clear Hnn. unfold Rsum. induction Hz as [|x l Hx Hl IH]; simpl;
      [reflexivity | lra]. }
  unfold normalize_row, handle_zeros_in_scale.
  rewrite l1_norm_nonneg, Hs by assumption.
  destruct (Req_dec_T 0 0) as [_|E]; [|contradiction].
  rewrite <- (map_id l) at 2. apply map_ext. intros; lra.
Qed.

Lemma normalize_row_sum l :
  Forall (fun x => 0 <= x) l -> Rsum l <> 0 -> Rsum (normalize_row l) = 1.
Proof.
  intros Hnn Hs. rewrite normalize_row_explicit by assumption.
  rewrite Rsum_map_div. field. assumption.
Qed.

Lemma normalize_row_pos l :
  Forall (fun x => 0 < x) l -> Forall (fun x => 0 < x) (normalize_row l).
Proof.
  intros Hpos. unfold normalize_row, handle_zeros_in_scale.
  rewrite l1_norm_pos by assumption.
  destruct (Req_dec_T (Rsum l) 0) as [E|E].
  - apply Forall_map. eapply Forall_impl; [|exact Hpos]. simpl; intros; lra.
  - destruct l as [|x l]; [constructor|].
    assert (0 < Rsum (x :: l)) by (apply Rsum_pos; [discriminate | assumption]).
    apply Forall_map. eapply Forall_impl; [|exact Hpos].
    simpl; intros a Ha. apply Rdiv_lt_0_compat; assumption.
Qed.

(** The norm [normalize] divides by is positive. *)
Lemma normalize_row_scale l :
  Forall (fun x => 0 <= x) l ->
  exists s, 0 < s /\ normalize_row l = map (fun v => v / s) l.
Proof.
  intros Hnn. unfold normalize_row, handle_zeros_in_scale.
  rewrite l1_norm_nonneg by assumption.
  pose proof (Rsum_nonneg Hnn).
  destruct (Req_dec_T (Rsum l) 0) as [E|E]; eexists; split;
    try reflexivity; lra.
Qed.

Lemma normalize_row_nonneg l :
  Forall (fun x => 0 <= x) l -> Forall (fun x => 0 <= x) (normalize_row l).
Proof.
  intros Hnn. destruct (normalize_row_scale Hnn) as (s & Hs & ->).
  apply Forall_map. eapply Forall_impl; [|exact Hnn].
  simpl; intros a Ha. apply Rle_mult_inv_pos; assumption.
Qed.

Lemma normalize_row_sum_le l :
  Forall (fun x => 0 <= x) l -> Rsum (normalize_row l) <= 1.
Proof.
  intros Hnn. destruct (Req_dec_T (Rsum l) 0) as [E|E].
  - rewrite (normalize_row_zeros (Rsum_zero Hnn E)), E. lra.
  - rewrite normalize_row_sum by assumption. lra.
Qed.

Lemma normalize_row_length l : length (normalize_row l) = length l.
Proof. unfold normalize_row. apply length_map. Qed.

Lemma neighbor_weights_unfold self region :
  neighbor_weights self region =
  (num <- neighbor_frequencies self region ;;
   normalize (map (map (raw_weight self)) num)).
Proof.
  unfold neighbor_weights, neighbor_frequencies.
  destruct (bincount (DSEL_target_ self)); simpl; [|reflexivity].
  destruct (np_take (DSEL_target_ self) region); reflexivity.
Qed.

(** What [neighbor_weights] returns, when it returns: the normalised raw
    weights of the neighbours' class frequencies. *)
Lemma neighbor_weights_inv self region W :
  neighbor_weights self region = Some W ->
  exists num : list (list nat),
    neighbor_frequencies self region = Some num /\
    Forall2 (fun i o => length o = length i) region num /\
    region <> [] /\ ncols region <> 0%nat /\
    W = map (fun r => normalize_row (map (raw_weight self) r)) num.
Proof.
  intros H.
  assert (Hu := neighbor_weights_unfold self region).
  unfold neighbor_weights, neighbor_frequencies in *.
  inv_bind H. inv_bind H. inv_bind H. unfold normalize in H. inv_bind H.
  injection H as <-. apply guard_Some in E2.
  apply andb_prop in E2 as [Hr Hc].
  exists x1. split; [rewrite E, E0; exact E1|].
  apply np_take_shape in E0, E1.
  assert (Hshape : Forall2 (fun (i : list Z) (o : list nat) =>
                              length o = length i) region x1).
  { clear - E0 E1. revert x1 E1.
    induction E0; intros x1 E1; inversion E1; subst; constructor.
    - congruence.
    - auto. }
  split; [assumption|].
  rewrite length_map in Hr.
  assert (ncols (map (map (raw_weight self)) x1) = ncols region) as Hnc.
  { destruct Hshape; simpl; [reflexivity|]. rewrite length_map. assumption. }
  rewrite Hnc in Hc.
  repeat split.
  - intros ->. inversion Hshape; subst. discriminate.
  - intros Hz. rewrite Hz in Hc. discriminate.
  - rewrite map_map. reflexivity.
Qed.

Lemma neighbor_weights_of_frequencies self region num W :
  neighbor_frequencies self region = Some num ->
  neighbor_weights self region = Some W ->
  W = map (fun r => normalize_row (map (raw_weight self) r)) num.
Proof.
  intros Hn HW.
  apply neighbor_weights_inv in HW as (num' & Hn' & _ & _ & _ & ->).
  congruence.
Qed.

Lemma normalized_rows self (region : list (list Z))
    (num : list (list nat)) k :
  Forall2 (fun i o => length o = length i) region num ->
  rect k region ->
  Forall (fun row => length row = k /\
                     Forall (fun w => 0 <= w) row /\ Rsum row <= 1)
         (map (fun r => normalize_row (map (raw_weight self) r)) num).
Proof.
  intros Hshape Hrect. apply Forall_map.
  induction Hshape as [|i o region num Hio Hrest IH]; constructor.
  - inversion Hrect; subst. rewrite normalize_row_length, length_map.
    split; [assumption|]. split.
    + apply normalize_row_nonneg, raw_weights_nonneg.
    + apply normalize_row_sum_le, raw_weights_nonneg.
  - inversion Hrect; subst. apply IH; assumption.
Qed.

(** Shape of the weights; their rows hold no negative entry and sum to 1
    at most. *)
Lemma neighbor_weights_rows self (region : list (list Z)) W :
  is_matrix region ->
  neighbor_weights self region = Some W ->
  length W = length region /\
  Forall (fun row => length row = ncols region /\
                     Forall (fun w => 0 <= w) row /\ Rsum row <= 1) W.
Proof.
  intros Hrect H.
  apply neighbor_weights_inv in H as (num & _ & Hshape & Hne & Hk & ->).
  split.
  - rewrite length_map. symmetry. eapply Forall2_length_eq; eauto.
  - eapply normalized_rows; eauto.
Qed.

(** C2, as the code has it.  For every query sample whose raw weights
    [1 / (1 + exp (alpha * class_frequency))] have an L1 norm of at least
    [guard_margin], the weights of its [k] neighbours, once L1-normalised
    across the neighbours, sum to 1. *)
Theorem weights_sum_to_one (self : DESMI) (competence_region : list (list Z))
    (num : list (list nat)) (W : list (list R)) :
  is_matrix competence_region ->
  neighbor_frequencies self competence_region = Some num ->
  neighbor_weights self competence_region = Some W ->
  length W = length competence_region /\
  Forall2 (fun freqs row =>
             length row = ncols competence_region /\
             (rescaled self freqs -> Rsum row = 1))
          num W.
Proof.
  intros Hrect Hnum H.
  destruct (neighbor_weights_rows self Hrect H) as [Hlen Hrows].
  split; [exact Hlen|].
  rewrite (neighbor_weights_of_frequencies _ _ Hnum H) in Hrows |- *.
  apply Forall2_map_right. rewrite Forall_map in Hrows.
  eapply Forall_impl; [|exact Hrows]. cbv beta.
  intros freqs (Hl & _ & _). split; [exact Hl|].
  intros Hres. apply normalize_row_sum; [apply raw_weights_nonneg|].
  unfold rescaled in Hres. pose proof guard_margin_bounds. lra.
Qed.

(** ** Competence *)

Lemma zip_with_length {A B C} (f : A -> B -> C) xs ys :
  length (zip_with f xs ys) = Nat.min (length xs) (length ys).
Proof.
  revert ys; induction xs as [|x xs IH]; intros [|y ys]; simpl; auto.
Qed.

Lemma zip_with_nth {A B C} (f : A -> B -> C) xs ys n dc da db :
  (n < length xs)%nat -> (n < length ys)%nat ->
  nth n (zip_with f xs ys) dc = f (nth n xs da) (nth n ys db).
Proof.
  revert ys n; induction xs as [|x xs IH]; intros [|y ys] [|n]; simpl;
    intros H1 H2; try lia; auto.
  apply IH; lia.
Qed.

Lemma sum_rows_length c rows : rect c rows -> length (sum_rows c rows) = c.
Proof.
  unfold sum_rows; induction 1 as [|r rows Hr Hrows IH]; simpl.
  - apply repeat_length.
  - rewrite zip_with_length, IH, Hr. apply Nat.min_id.
Qed.

Lemma sum_rows_nth c rows j :
  rect c rows -> (j < c)%nat ->
  nth j (sum_rows c rows) 0 = Rsum (map (fun r => nth j r 0) rows).
Proof.
  intros Hrect Hj. induction Hrect as [|r rows Hr Hrows IH].
  - unfold sum_rows; simpl. apply nth_repeat.
  - change (sum_rows c (r :: rows)) with (zip_with Rplus r (sum_rows c rows)).
    rewrite (zip_with_nth Rplus r (sum_rows c rows) 0 0 0).
    + rewrite IH. reflexivity.
    + lia.
    + rewrite sum_rows_length by assumption. assumption.
Qed.

Lemma np_index_In {A} (a : list A) i x : np_index a i = Some x -> In x a.
Proof.
  unfold np_index.
  destruct (0 <=? i)%Z; [|destruct (- Z.of_nat (length a) <=? i)%Z];
    intros H; try discriminate; eapply nth_error_In; eauto.
Qed.

Lemma np_take_In {A} (a : list A) idx r :
  np_take a idx = Some r -> Forall (Forall (fun x => In x a)) r.
Proof.
  unfold np_take; intros H. apply mapM_Forall2 in H.
  induction H as [|i o idx r Hio Hrest IH]; constructor; auto.
  apply mapM_Forall2 in Hio. clear - Hio.
  induction Hio; constructor; auto. eapply np_index_In; eauto.
Qed.

Lemma scaled_row_nth (row : list bool) w j :
  nth j (map (fun b => b2r b * w) row) 0 = b2r (nth j row false) * w.
Proof.
  revert j; induction row as [|b row IH]; intros [|j]; simpl; auto; lra.
Qed.

(** One entry of a competence row is the weighted count of the neighbours
    the classifier gets right. *)
Lemma competence_row_nth c (cn : list (list bool)) (w : list R) j :
  rect c cn -> (j < c)%nat ->
  nth j (competence_row c cn w) 0 =
  Rsum (zip_with (fun flags wi => b2r (nth j flags false) * wi) cn w).
Proof.
  intros Hrect Hj. unfold competence_row.
  rewrite sum_rows_nth; [|
    clear - Hrect; revert w; induction Hrect; intros [|wi w]; simpl;
      constructor; [rewrite length_map; assumption | apply IHHrect]
  | assumption].
  f_equal. clear Hrect. revert w.
  induction cn as [|row cn IH]; intros [|wi w]; simpl; auto.
  rewrite scaled_row_nth, IH. reflexivity.
Qed.



Lemma Forall_nth_lt {A} (P : A -> Prop) l n d :
  Forall P l -> (n < length l)%nat -> P (nth n l d).
Proof. intros H Hn. rewrite Forall_forall in H. apply H, nth_In, Hn. Qed.


Lemma is_matrix_intro {A} (m : list (list A)) :
  forallb (fun r => (length r =? ncols m)%nat) m = true -> is_matrix m.
Proof.
  unfold is_matrix, rect. rewrite forallb_forall, Forall_forall.
  intros H r Hr. apply Nat.eqb_eq, H, Hr.
Qed.

(** A sample with a neighbour of a class frequency up to [10 / alpha] is
    rescaled. *)
Lemma rescaled_intro self freqs n :
  In n freqs -> pyval (alpha self) * INR n <= 10 -> rescaled self freqs.
Proof.
  intros Hin Hn. unfold rescaled.
  apply Rle_trans with (raw_weight self n);
    [apply raw_weight_above_margin, Hn|].
  apply Rsum_ge_In; [apply raw_weights_nonneg | apply in_map, Hin].
Qed.

Lemma demo_rescaled : rescaled demo [3; 1]%nat.
Proof.
  apply (@rescaled_intro demo [3; 1]%nat 1%nat).
  - right. left. reflexivity.
  - simpl. lra.
Qed.

Lemma weights_sum_to_one_witness :
  exists W, neighbor_weights demo [[0; 3]]%Z = Some W /\
    rescaled demo [3; 1]%nat /\
    length W = 1%nat /\
    Forall2 (fun freqs row =>
               length row = 2%nat /\ (rescaled demo freqs -> Rsum row = 1))
            [[3; 1]]%nat W.
Proof.
  eexists. split; [reflexivity|]. split; [exact demo_rescaled|].
  apply (@weights_sum_to_one demo [[0; 3]]%Z [[3; 1]]%nat).
  - apply is_matrix_intro. reflexivity.
  - reflexivity.
  - reflexivity.
Defined.

(** With 1200 DSEL samples in each class and [alpha = 0.9], [np.exp]
    overflows for every neighbour: the raw weights are 0, the norm is 0,
    and the row is left at 0. *)
Lemma crowded_frequencies :
  neighbor_frequencies crowded [[0; 1200]]%Z = Some [[1200; 1200]]%nat.
Proof. vm_compute. reflexivity. Qed.

Lemma crowded_overflow :
  float_max < exp (pyval (alpha crowded) * INR 1200).
Proof.
  apply exp_large. rewrite INR_IZR_INZ.
  change (Z.of_nat 1200) with 1200%Z.
  change (pyval (alpha crowded)) with (9 / 10). lra.
Qed.

Lemma crowded_weights :
  neighbor_weights crowded [[0; 1200]]%Z = Some [[0; 0]].
Proof.
  rewrite neighbor_weights_unfold, crowded_frequencies.
  unfold bind, normalize. cbn [length map ncols Nat.eqb negb andb guard].
  rewrite (raw_weight_overflow crowded 1200 crowded_overflow).
  rewrite normalize_row_zeros by (repeat constructor). reflexivity.
Qed.

Lemma weights_overflow_counterexample :
  is_matrix [[0; 1200]]%Z /\
  neighbor_weights crowded [[0; 1200]]%Z = Some [[0; 0]] /\
  ~ Forall (fun row => length row = 2%nat /\ Rsum row = 1) [[0; 0]].
Proof.
  split; [apply is_matrix_intro; reflexivity|].
  split; [exact crowded_weights|].
  intros H. inversion H as [|? ? [_ Hs] _]; subst.
  unfold Rsum in Hs. simpl in Hs. lra.
Qed.


(** ** The competence estimate is defined on well-formed input *)

Lemma np_index_valid {A} (a : list A) i :
  valid_index a i -> exists x, np_index a i = Some x.
Proof.
  unfold valid_index, np_index. intros H.
  destruct (Z.leb_spec 0 i); [|lia].
  destruct (nth_error a (Z.to_nat i)) eqn:E; [eauto|].
  apply nth_error_None in E. lia.
Qed.

Lemma mapM_defined {A B} (f : A -> option B) l :
  Forall (fun a => exists b, f a = Some b) l -> exists r, mapM f l = Some r.
Proof.
  induction 1 as [|a l [b Hb] Hl [r Hr]]; simpl; [eauto|].
  rewrite Hb, Hr. simpl. eauto.
Qed.

Lemma np_take_defined {A} (a : list A) idx :
  Forall (Forall (valid_index a)) idx -> exists r, np_take a idx = Some r.
Proof.
  intros H. apply mapM_defined. eapply Forall_impl; [|exact H].
  intros row Hrow. apply mapM_defined. eapply Forall_impl; [|exact Hrow].
  intros i. apply np_index_valid.
Qed.

Lemma fold_max_bound x v : In v x -> (v <= fold_right Z.max (-1) x)%Z.
Proof.
  induction x as [|u x IH]; simpl; [tauto|].
  intros [->|H]; [lia|]. specialize (IH H). lia.
Qed.

(** Every label that occurs has a bin in the class frequencies. *)
Lemma bincount_defined x :
  Forall (fun v => (0 <= v)%Z) x ->
  exists cf, bincount x = Some cf /\ Forall (valid_index cf) x.
Proof.
  intros H. unfold bincount.
  assert (Hg : forallb (fun v => (0 <=? v)%Z) x = true).
  { apply forallb_forall. rewrite Forall_forall in H.
    intros v Hv. apply Z.leb_le, H, Hv. }
  rewrite Hg. simpl. eexists. split; [reflexivity|].
  rewrite Forall_forall in H |- *. intros v Hv.
  unfold valid_index. rewrite length_map, length_seq.
  pose proof (fold_max_bound x v Hv). specialize (H v Hv). lia.
Qed.

(** X1.  On a non-empty region of valid neighbour indices, with non-negative
    labels and a correctness row per DSEL sample, the estimate is defined. *)
Lemma estimate_competence_returns (self : DESMI)
    (competence_region : list (list Z))
    (distances : option (list (list R)))
    (predictions : option (list (list Z))) :
  Forall (fun label => (0 <= label)%Z) (DSEL_target_ self) ->
  length (DSEL_processed_ self) = length (DSEL_target_ self) ->
  competence_region <> [] ->
  ncols competence_region <> 0%nat ->
  Forall (Forall (valid_index (DSEL_target_ self))) competence_region ->
  correct_loop_ok self competence_region = true ->
  exists competence,
    estimate_competence self competence_region distances predictions
    = Some competence.
Proof.
  intros Hlab Hlen Hne Hk Hidx Hloop.
  unfold estimate_competence, neighbor_weights.
  destruct (bincount_defined Hlab) as (cf & -> & Hcf). simpl.
  destruct (np_take_defined Hidx) as (targets & Ht). rewrite Ht. simpl.
  assert (Htv : Forall (Forall (valid_index cf)) targets).
  { pose proof (np_take_In _ _ Ht) as Hin.
    eapply Forall_impl; [|exact Hin]. intros row Hrow.
    eapply Forall_impl; [|exact Hrow]. intros t Hin'.
    rewrite Forall_forall in Hcf. auto. }
  destruct (np_take_defined Htv) as (num & Hn). rewrite Hn. simpl.
  assert (Hgd : negb (length (map (map (raw_weight self)) num) =? 0)%nat
                && negb (ncols (map (map (raw_weight self)) num) =? 0)%nat
                = true).
  { pose proof (np_take_shape _ _ Ht) as S1.
    pose proof (np_take_shape _ _ Hn) as S2.
    destruct S1 as [|r t region targets' Hrt S1]; [congruence|].
    inversion S2 as [|? n ? num' Htn S2']; subst. simpl in *.
    rewrite length_map.
    destruct (Nat.eqb_spec (length n) 0); [|reflexivity]. lia. }
  unfold normalize. rewrite Hgd. simpl.
  assert (Hidx' : Forall (Forall (valid_index (DSEL_processed_ self)))
                         competence_region).
  { eapply Forall_impl; [|exact Hidx]. intros row Hrow.
    eapply Forall_impl; [|exact Hrow]. unfold valid_index. intros i Hi.
    rewrite Hlen. exact Hi. }
  destruct (np_take_defined Hidx') as (cn & ->). simpl.
  rewrite Hloop. simpl. eauto.
Qed.

Lemma estimate_competence_returns_witness :
  exists competence,
    estimate_competence demo [[0; 3]]%Z None None = Some competence.
Proof.
  apply (@estimate_competence_returns demo [[0; 3]]%Z None None).
  - repeat constructor; discriminate.
  - reflexivity.
  - discriminate.
  - discriminate.
  - repeat constructor; unfold valid_index; simpl; lia.
  - reflexivity.
Defined.

(** ** Ordered lists of indices *)

Lemma pairwise_impl (P Q : nat -> nat -> Prop) l :
  (forall i j, P i j -> Q i j) -> pairwise P l -> pairwise Q l.
Proof. intros H HP p q Hpq. apply H, HP, Hpq. Qed.

Lemma pairwise_rev (P : nat -> nat -> Prop) l :
  pairwise P l -> pairwise (fun i j => P j i) (rev l).
Proof.
  intros H p q Hpq. rewrite length_rev in Hpq.
  rewrite !rev_nth by lia. apply H. lia.
Qed.

Lemma pairwise_firstn (P : nat -> nat -> Prop) n l :
  pairwise P l -> pairwise P (firstn n l).
Proof.
  intros H p q Hpq. rewrite length_firstn in Hpq.
  rewrite !nth_firstn.
  destruct (Nat.ltb_spec p n), (Nat.ltb_spec q n); try lia.
  apply H. lia.
Qed.

Lemma StronglySorted_pairwise (P : nat -> nat -> Prop) l :
  StronglySorted P l -> pairwise P l.
Proof.
  induction 1 as [|a l Hl IH Ha]; intros p q Hpq; simpl in *; [lia|].
  destruct q as [|q]; [lia|]. destruct p as [|p].
  - rewrite Forall_forall in Ha. apply Ha, nth_In. lia.
  - apply IH. lia.
Qed.

Lemma In_firstn {A} (x : A) n l : In x (firstn n l) -> In x l.
Proof.
  intros H. rewrite <- (firstn_skipn n l). apply in_or_app. now left.
Qed.

Lemma slice_to_nonneg {A} (stop : Z) (l : list A) :
  (0 <= stop)%Z -> slice_to stop l = firstn (Z.to_nat stop) l.
Proof.
  intros H. unfold slice_to.
  destruct (Z.ltb_spec stop 0); [lia | reflexivity].
Qed.

(** ** select *)

Section SelectFacts.

Variable argsort : list R -> list nat.
Hypothesis argsort_ok : argsort_spec argsort.

Lemma argsort_length v : length (argsort v) = length v.
Proof.
  destruct (argsort_ok v) as [Hp _].
  rewrite (Permutation_length Hp). apply length_seq.
Qed.

Lemma argsort_In v i : In i (argsort v) <-> (i < length v)%nat.
Proof.
  destruct (argsort_ok v) as [Hp _]. split; intros H.
  - apply (Permutation_in _ Hp), in_seq in H. lia.
  - apply (Permutation_in _ (Permutation_sym Hp)), in_seq. lia.
Qed.

Lemma argsort_NoDup v : NoDup (argsort v).
Proof.
  destruct (argsort_ok v) as [Hp _].
  apply (Permutation_NoDup (Permutation_sym Hp)), seq_NoDup.
Qed.

Lemma select_reference_top n row :
  (n <= length row)%nat ->
  top_selection n row (select_reference argsort n row).
Proof.
  intros Hn. unfold select_reference, top_selection.
  destruct (argsort_ok row) as [_ Hs].
  assert (Hdesc : pairwise (fun i j => nth j row 0 <= nth i row 0)
                           (rev (argsort row)))
    by (apply pairwise_rev in Hs; exact Hs).
  repeat split.
  - rewrite length_firstn, length_rev, argsort_length. lia.
  - apply (@NoDup_app_remove_r _ _ (skipn n (rev (argsort row)))).
    rewrite firstn_skipn. apply NoDup_rev, argsort_NoDup.
  - apply Forall_forall. intros i Hi.
    apply In_firstn, in_rev, argsort_In in Hi. exact Hi.
  - apply pairwise_firstn, Hdesc.
  - intros i j Hi Hj Hnot.
    assert (Hjr : In j (rev (argsort row)))
      by (apply in_rev; rewrite rev_involutive; apply argsort_In, Hj).
    rewrite <- (firstn_skipn n (rev (argsort row))) in Hjr.
    apply in_app_or in Hjr as [Hjr | Hjr]; [contradiction|].
    apply (In_nth _ _ 0%nat) in Hi as (p & Hp & <-).
    apply (In_nth _ _ 0%nat) in Hjr as (q & Hq & <-).
    rewrite length_firstn in Hp. rewrite length_skipn in Hq.
    rewrite nth_firstn, nth_skipn.
    destruct (Nat.ltb_spec p n); [|lia].
    apply Hdesc. lia.
Qed.

Lemma select_eq self competences stop :
  N_ self = Some stop ->
  select argsort self competences =
  Some (map (fun row => slice_to stop (rev (argsort row)))
            (as_matrix competences)).
Proof.
  intros H. unfold select. rewrite H. simpl. rewrite map_map. reflexivity.
Qed.

(** C3.  On a competence matrix with at least [N] columns (a vector is
    first promoted to a one-row matrix) [select] returns, for each sample,
    exactly [N] distinct classifier indices by descending competence, the
    [N] most competent ones, as the reference argsort-and-reverse
    computation gives them. *)
Theorem select_top_N (self : DESMI) (competences : ndarray) (N : Z) :
  N_ self = Some N ->
  (0 <= N)%Z ->
  Forall (fun row => (Z.to_nat N <= length row)%nat)
         (as_matrix competences) ->
  exists selected,
    select argsort self competences = Some selected /\
    selected = map (select_reference argsort (Z.to_nat N))
                   (as_matrix competences) /\
    Forall2 (top_selection (Z.to_nat N)) (as_matrix competences) selected.
Proof.
  intros HN Hpos Hcols. eexists. split; [apply (select_eq _ _ HN)|].
  assert (Heq : map (fun row => slice_to N (rev (argsort row)))
                    (as_matrix competences)
                = map (select_reference argsort (Z.to_nat N))
                      (as_matrix competences)).
  { apply map_ext. intros row. apply slice_to_nonneg, Hpos. }
  split; [exact Heq|]. rewrite Heq. clear Heq.
  induction Hcols as [|row rows Hrow Hrows IH]; simpl; constructor.
  - apply select_reference_top, Hrow.
  - exact IH.
Qed.

Hypothesis argsort_is_stable : argsort_stable argsort.

(** C4, as the code has it.  [select] reverses what [np.argsort] returns,
    so with a stable argsort classifiers of equal competence come out by
    descending original index: the highest index first. *)
Theorem select_ties_highest_index_first (self : DESMI)
    (competences : ndarray) (selected : list (list nat)) :
  select argsort self competences = Some selected ->
  Forall2 ties_highest_first (as_matrix competences) selected.
Proof.
  intros H. destruct (N_ self) as [stop|] eqn:HN;
    [|unfold select in H; rewrite HN in H; discriminate].
  rewrite (select_eq _ _ HN) in H. injection H as <-.
  induction (as_matrix competences) as [|row rows IH]; simpl; constructor;
    [|exact IH].
  unfold ties_highest_first, slice_to. apply pairwise_firstn.
  pose proof (pairwise_rev (argsort_is_stable row)) as Hr.
  eapply pairwise_impl; [|exact Hr]. simpl. intros i j Hij E. auto.
Qed.

End SelectFacts.

(** ** numpy's insertion sort meets the contract and is stable *)

Lemma insert_from_right_perm v i rp :
  Permutation (insert_from_right v i rp) (i :: rp).
Proof.
  induction rp as [|pk rest IH]; simpl; [reflexivity|].
  destruct (Rlt_dec (nth i v 0) (nth pk v 0)); [|reflexivity].
  rewrite IH. apply perm_swap.
Qed.

Lemma insert_from_right_sorted v i rp :
  StronglySorted (sits_before v) rp ->
  Forall (fun x => (x < i)%nat) rp ->
  StronglySorted (sits_before v) (insert_from_right v i rp).
Proof.
  induction 1 as [|pk rest Hrest IH Hpk]; intros Hlt; simpl.
  - repeat constructor.
  - inversion Hlt as [|? ? Hpki Hresti]; subst.
    destruct (Rlt_dec (nth i v 0) (nth pk v 0)) as [Hlt'|Hge].
    + constructor; [apply IH, Hresti|].
      eapply Permutation_Forall;
        [apply Permutation_sym, insert_from_right_perm|].
      constructor; [left; exact Hlt' | exact Hpk].
    + constructor; [constructor; assumption|].
      assert (Hpk_i : nth pk v 0 <= nth i v 0) by lra.
      constructor.
      * unfold sits_before. destruct (Rle_lt_or_eq_dec _ _ Hpk_i); auto.
      * rewrite Forall_forall in *. intros x Hx.
        specialize (Hpk x Hx). specialize (Hresti x Hx).
        unfold sits_before in *.
        assert (nth x v 0 <= nth i v 0) as Hxi by (destruct Hpk; lra).
        destruct (Rle_lt_or_eq_dec _ _ Hxi); auto.
Qed.

Lemma insertion_pass n v :
  StronglySorted (sits_before v)
    (fold_left (fun rp i => insert_from_right v i rp) (seq 0 n) []) /\
  Permutation
    (fold_left (fun rp i => insert_from_right v i rp) (seq 0 n) [])
    (seq 0 n).
Proof.
  induction n as [|n [Hs Hp]].
  - split; constructor.
  - rewrite seq_S, fold_left_app. cbn [fold_left Nat.add]. split.
    + apply insert_from_right_sorted; [exact Hs|].
      eapply Permutation_Forall; [apply Permutation_sym, Hp|].
      apply Forall_forall. intros x Hx. apply in_seq in Hx. lia.
    + rewrite insert_from_right_perm. rewrite Hp.
      apply Permutation_cons_append.
Qed.

Lemma np_argsort_order v :
  pairwise (fun i j => sits_before v j i) (np_argsort v).
Proof.
  unfold np_argsort. apply pairwise_rev, StronglySorted_pairwise.
  apply (insertion_pass (length v) v).
Qed.

Lemma np_argsort_spec : argsort_spec np_argsort.
Proof.
  intros v. split.
  - unfold np_argsort. rewrite <- Permutation_rev.
    apply (insertion_pass (length v) v).
  - eapply pairwise_impl; [|apply np_argsort_order].
    unfold sits_before. simpl. intros i j [H|[H _]]; lra.
Qed.

Lemma np_argsort_stable : argsort_stable np_argsort.
Proof.
  intros v. eapply pairwise_impl; [|apply np_argsort_order].
  unfold sits_before. simpl. intros i j [H|[_ H]] E; [lra | exact H].
Qed.

(** ** Selection on concrete rows *)

(** Settles the comparisons of concrete reals a goal branches on. *)
Ltac decide_reals :=
  repeat (match goal with
          | |- context [Rlt_dec ?a ?b] => destruct (Rlt_dec a b); try lra
          | |- context [Rle_dec ?a ?b] => destruct (Rle_dec a b); try lra
          | |- context [Req_dec_T ?a ?b] => destruct (Req_dec_T a b); try lra
          end; cbn [insert_from_right nth rev app]).

Lemma np_argsort_tie : np_argsort [1; 1; 1 / 2] = [2; 0; 1]%nat.
Proof. unfold np_argsort. simpl. decide_reals. reflexivity. Qed.

Lemma select_tie_value :
  select np_argsort demo (Arr1 [1; 1; 1 / 2]) = Some [[1; 0]%nat].
Proof.
  unfold select. simpl. rewrite np_argsort_tie. reflexivity.
Qed.

Lemma select_ties_counterexample :
  select np_argsort demo (Arr1 [1; 1; 1 / 2]) = Some [[1; 0]%nat] /\
  ~ Forall2 ties_lowest_first (as_matrix (Arr1 [1; 1; 1 / 2])) [[1; 0]%nat].
Proof.
  split; [exact select_tie_value|].
  intros H. inversion H as [|? ? ? ? Hrow _]; subst.
  specialize (Hrow 0%nat 1%nat). simpl in Hrow.
  assert ((1 < 0)%nat) by (apply Hrow; [lia | reflexivity]). lia.
Qed.

Lemma select_ties_highest_index_first_witness :
  Forall2 ties_highest_first (as_matrix (Arr1 [1; 1; 1 / 2])) [[1; 0]%nat].
Proof.
  apply (@select_ties_highest_index_first np_argsort np_argsort_stable demo).
  exact select_tie_value.
Defined.

Lemma select_top_N_witness :
  exists selected,
    select np_argsort demo (Arr2 [[3 / 10; 9 / 10; 1 / 2]]) = Some selected /\
    selected = map (select_reference np_argsort 2) [[3 / 10; 9 / 10; 1 / 2]] /\
    Forall2 (top_selection 2) [[3 / 10; 9 / 10; 1 / 2]] selected.
Proof.
  apply (@select_top_N np_argsort np_argsort_spec demo
           (Arr2 [[3 / 10; 9 / 10; 1 / 2]]) 2%Z).
  - reflexivity.
  - lia.
  - repeat constructor.
Defined.

(** ** Broadcasting and gathering *)

Lemma mapM_In {A B} (f : A -> option B) l r b :
  mapM f l = Some r -> In b r -> exists a, In a l /\ f a = Some b.
Proof.
  intros H. apply mapM_Forall2 in H.
  induction H as [|a b' l r Hab Hrest IH]; simpl; [tauto|].
  intros [<-|Hin]; [eauto|]. destruct (IH Hin) as (a' & Ha' & Hf). eauto.
Qed.

Lemma broadcast_In {A B C} (f : A -> B -> option C) xs ys r c :
  broadcast f xs ys = Some r -> In c r ->
  exists x y, In x xs /\ In y ys /\ f x y = Some c.
Proof.
  intros H Hc. unfold broadcast in H.
  assert (Hzip : forall r',
             mapM (fun p => f (fst p) (snd p)) (combine xs ys) = Some r' ->
             In c r' -> exists x y, In x xs /\ In y ys /\ f x y = Some c).
  { intros r' Hr' Hc'. destruct (mapM_In _ _ _ Hr' Hc') as ([x y] & Hin & Hf).
    exists x, y. split; [eapply in_combine_l; eauto|].
    split; [eapply in_combine_r; eauto | exact Hf]. }
  assert (Hleft : forall x r', xs = [x] -> mapM (fun y => f x y) ys = Some r' ->
             In c r' -> exists x y, In x xs /\ In y ys /\ f x y = Some c).
  { intros x r' -> Hr' Hc'. destruct (mapM_In _ _ _ Hr' Hc') as (y & Hy & Hf).
    exists x, y. simpl; auto. }
  assert (Hright : forall y r',
             ys = [y] -> mapM (fun x => f x y) xs = Some r' ->
             In c r' -> exists x y, In x xs /\ In y ys /\ f x y = Some c).
  { intros y r' -> Hr' Hc'. destruct (mapM_In _ _ _ Hr' Hc') as (x & Hx & Hf).
    exists x, y. simpl; auto. }
  destruct xs as [|x [|x' xs']].
  - destruct ys as [|y [|y' ys']].
    + inv_bind H. eauto.
    + eauto.
    + inv_bind H. eauto.
  - eauto.
  - destruct ys as [|y [|y' ys']].
    + inv_bind H. eauto.
    + eauto.
    + inv_bind H. eauto.
Qed.

(** A gathered row is as long as the row of positions it was read at. *)
Lemma take_selected_rows {A} (a : list (list A)) selected r :
  take_selected a selected = Some r ->
  Forall (fun v => exists row sel,
            In row a /\ In sel selected /\ length v = length sel /\
            Forall (fun x => In x row) v) r.
Proof.
  intros H. apply Forall_forall. intros v Hv.
  destruct (broadcast_In _ _ _ _ H Hv) as (row & sel & Hrow & Hsel & Hf).
  exists row, sel. repeat split; auto.
  - eapply mapM_length; eauto.
  - apply Forall_forall. intros x Hx.
    destruct (mapM_In _ _ _ Hf Hx) as (i & _ & Hi).
    eapply nth_error_In; eauto.
Qed.

(** ** Hard vote *)

Lemma indicator_total (x : Z) start n :
  total (map (fun label => if Z.eq_dec x (Z.of_nat label) then 1%nat else 0%nat)
             (seq start n)) =
  if ((Z.of_nat start <=? x) && (x <? Z.of_nat (start + n)))%Z
  then 1%nat else 0%nat.
Proof.
  revert start; induction n as [|n IH]; intros start; simpl.
  - destruct (Z.leb_spec (Z.of_nat start) x),
             (Z.ltb_spec x (Z.of_nat (start + 0)));
      simpl; auto; lia.
  - rewrite IH.
    destruct (Z.eq_dec x (Z.of_nat start));
      destruct (Z.leb_spec (Z.of_nat (S start)) x),
               (Z.ltb_spec x (Z.of_nat (S start + n))),
               (Z.leb_spec (Z.of_nat start) x),
               (Z.ltb_spec x (Z.of_nat (start + S n))); simpl; auto; lia.
Qed.

Lemma total_pointwise_add (f g : nat -> nat) l :
  total (map (fun c => (f c + g c)%nat) l)
  = (total (map f l) + total (map g l))%nat.
Proof. unfold total; induction l as [|c l IH]; simpl; lia. Qed.

(** Every in-range vote lands in exactly one bin. *)
Lemma histogram_total (row : list Z) n_classes :
  Forall (valid_label n_classes) row ->
  total (map (fun label => count_occ Z.eq_dec row (Z.of_nat label))
             (seq 0 n_classes)) = length row.
Proof.
  induction 1 as [|x row Hx Hrow IH]; simpl.
  - unfold total. induction (seq 0 n_classes); simpl; auto.
  - rewrite <- IH.
    rewrite (map_ext _
      (fun label => ((if Z.eq_dec x (Z.of_nat label) then 1 else 0)
                     + count_occ Z.eq_dec row (Z.of_nat label))%nat)).
    + rewrite total_pointwise_add, indicator_total.
      unfold valid_label in Hx.
      destruct (Z.leb_spec (Z.of_nat 0) x),
               (Z.ltb_spec x (Z.of_nat (0 + n_classes)));
        simpl; lia.
    + intros label. destruct (Z.eq_dec x (Z.of_nat label)); reflexivity.
Qed.

Lemma npsum_true_divide (votes : list nat) t :
  t <> 0%nat ->
  npsum (map (fun v => np_true_divide v t) votes)
  = Fin (INR (total votes) / INR t).
Proof.
  intros Ht. unfold np_true_divide.
  destruct (Nat.eqb_spec t 0) as [|_]; [contradiction|].
  assert (INR t <> 0) by (apply not_0_INR; assumption).
  unfold npsum, total. induction votes as [|v votes IH]; simpl.
  - f_equal. field. assumption.
  - rewrite IH. simpl. f_equal. rewrite plus_INR. field. assumption.
Qed.

Lemma vote_proba_sum (votes : list nat) :
  total votes <> 0%nat -> npsum (vote_proba votes) = Fin 1.
Proof.
  intros Ht. unfold vote_proba. fold (total votes).
  rewrite npsum_true_divide by assumption.
  f_equal. field. apply not_0_INR; assumption.
Qed.

(** ** Soft vote *)

Lemma Rsum_zip_plus a b :
  length a = length b -> Rsum (zip_with Rplus a b) = Rsum a + Rsum b.
Proof.
  revert b; unfold Rsum; induction a as [|x a IH]; intros [|y b]; simpl;
    intros H; try discriminate; [lra|].
  rewrite IH by congruence. lra.
Qed.

Lemma Rsum_repeat_0 c : Rsum (repeat 0 c) = 0.
Proof. unfold Rsum; induction c; simpl; lra. Qed.

Lemma Rsum_sum_rows c rows :
  rect c rows -> Rsum (sum_rows c rows) = Rsum (map Rsum rows).
Proof.
  induction 1 as [|r rows Hr Hrows IH].
  - unfold sum_rows; simpl. apply Rsum_repeat_0.
  - change (sum_rows c (r :: rows)) with (zip_with Rplus r (sum_rows c rows)).
    rewrite Rsum_zip_plus by (rewrite sum_rows_length; assumption).
    rewrite IH. reflexivity.
Qed.

Lemma npsum_Fin_div (l : list R) d :
  npsum (map (fun s => Fin (s / d)) l) = Fin (Rsum l / d).
Proof.
  unfold npsum, Rsum; induction l as [|x l IH]; simpl.
  - f_equal. lra.
  - rewrite IH. simpl. f_equal. lra.
Qed.

Lemma np_mean_sum c rows :
  rows <> [] -> Forall (sums_to_one c) rows -> npsum (np_mean c rows) = Fin 1.
Proof.
  intros Hne Hrows. unfold np_mean.
  destruct rows as [|r rows]; [congruence|]. clear Hne.
  change (length (r :: rows) =? 0)%nat with false. cbv iota.
  rewrite npsum_Fin_div, Rsum_sum_rows.
  - f_equal.
    assert (Hs : Rsum (map Rsum (r :: rows)) = INR (length (r :: rows))).
    { clear - Hrows. induction Hrows as [|x l [_ Hx] Hl IH].
      - reflexivity.
      - change (Rsum (map Rsum (x :: l))) with (Rsum x + Rsum (map Rsum l)).
        rewrite IH, Hx. change (length (x :: l)) with (S (length l)).
        rewrite S_INR. lra. }
    rewrite Hs. field. apply not_0_INR. discriminate.
  - eapply Forall_impl; [|exact Hrows]. intros v [Hv _]. exact Hv.
Qed.

(** ** Rows of the predicted probabilities *)

Section PredictFacts.

Variable argsort : list R -> list nat.
Hypothesis argsort_ok : argsort_spec argsort.

(** With at least [N] columns to choose from, every row of the selection
    has [N] entries. *)
Lemma select_row_lengths self accuracy N selected :
  N_ self = Some N -> (0 <= N)%Z ->
  Forall (fun row => (Z.to_nat N <= length row)%nat) accuracy ->
  select argsort self (Arr2 accuracy) = Some selected ->
  Forall (fun sel => length sel = Z.to_nat N) selected.
Proof.
  intros HN Hpos Hcols H. rewrite (select_eq _ _ _ HN) in H.
  injection H as <-. simpl. apply Forall_map.
  eapply Forall_impl; [|exact Hcols]. intros row Hrow. simpl.
  rewrite slice_to_nonneg by assumption.
  apply (select_reference_top argsort_ok row Hrow).
Qed.

(** C5.  Every row of the matrix [predict_proba_with_ds] returns sums
    to 1.  In hard-vote mode the histogram of a sample is divided by its
    total vote count, which is [N] when the labels the selected classifiers
    predict lie in [0, n_classes); in the other mode the mean of the [N]
    selected probability vectors sums to 1 when each input vector does. *)
Theorem predict_proba_rows_sum_to_one (self : DESMI)
    (predictions : option (list (list Z)))
    (probabilities : option (list (list (list R))))
    (competence_region : list (list Z))
    (distances : option (list (list R)))
    (DFP_mask : option (list (list R)))
    (N : Z) (accuracy : list (list R)) (proba : list (list npfloat)) :
  N_ self = Some N ->
  (1 <= N)%Z ->
  masked_competence self competence_region distances DFP_mask
    = Some accuracy ->
  Forall (fun row => (Z.to_nat N <= length row)%nat) accuracy ->
  (if String.eqb (voting self) "hard"
   then selected_votes_valid argsort self predictions competence_region
          distances DFP_mask
   else probabilities_valid probabilities) ->
  predict_proba_with_ds argsort self predictions probabilities
    competence_region distances DFP_mask = Some proba ->
  Forall (fun row => npsum row = Fin 1) proba /\
  (voting self = "hard"%string ->
   exists P selected votes,
     predictions = Some P /\
     selected_classifiers argsort self competence_region distances DFP_mask
       = Some selected /\
     take_selected P selected = Some votes /\
     Forall (fun histogram => total histogram = Z.to_nat N)
            (sum_votes_per_class votes (n_classes_ self)) /\
     proba = map vote_proba (sum_votes_per_class votes (n_classes_ self))).
Proof.
  intros HN Hpos Hacc Hcols Hvalid H.
  unfold predict_proba_with_ds in H. inv_bind H. rename x into selected.
  assert (Hlen : Forall (fun sel => length sel = Z.to_nat N) selected).
  { pose proof E as E'. unfold selected_classifiers in E'.
    rewrite Hacc in E'. simpl in E'.
    eapply select_row_lengths; eauto. lia. }
  destruct (String.eqb_spec (voting self) "hard") as [Hv|Hv].
  - (* hard vote *)
    unfold hard_vote in H. inv_bind H. inv_bind H. injection H as <-.
    rename x into P, x0 into votes. subst predictions.
    pose proof (Hvalid P selected votes eq_refl E E1) as Hlabels.
    assert (Htot : Forall (fun histogram => total histogram = Z.to_nat N)
                          (sum_votes_per_class votes (n_classes_ self))).
    { unfold sum_votes_per_class. apply Forall_map, Forall_forall.
      intros v Hv'. simpl.
      rewrite Forall_forall in Hlabels.
      rewrite (histogram_total (Hlabels v Hv')).
      pose proof (take_selected_rows _ _ E1) as Hrows.
      rewrite Forall_forall in Hrows.
      destruct (Hrows v Hv') as (row & sel & _ & Hsel & Hl & _).
      rewrite Forall_forall in Hlen. rewrite Hl. auto. }
    split.
    + apply Forall_map. eapply Forall_impl; [|exact Htot].
      intros hist Hh. simpl. apply vote_proba_sum. rewrite Hh. lia.
    + intros _. exists P, selected, votes. auto.
  - (* soft vote *)
    split; [|congruence].
    unfold soft_vote in H. inv_bind H. inv_bind H. injection H as <-.
    rename x into P, x0 into ensemble. subst probabilities.
    specialize (Hvalid P eq_refl).
    pose proof (take_selected_rows _ _ E1) as Hrows.
    apply Forall_map. eapply Forall_impl; [|exact Hrows].
    intros e (row & sel & Hrow & Hsel & Hl & Hin). simpl.
    apply np_mean_sum.
    + rewrite Forall_forall in Hlen. specialize (Hlen sel Hsel).
      intros ->. simpl in Hl. lia.
    + rewrite Forall_forall in Hvalid. specialize (Hvalid row Hrow).
      rewrite Forall_forall in Hvalid |- *. intros vec Hvec.
      rewrite Forall_forall in Hin. auto.
Qed.

End PredictFacts.

(** Labels that are all in range are in range where they are selected. *)
Lemma valid_predictions_selected argsort self P region distances mask :
  Forall (Forall (valid_label (n_classes_ self))) P ->
  selected_votes_valid argsort self (Some P) region distances mask.
Proof.
  intros HP P' selected votes E _ Hvotes. injection E as <-.
  pose proof (take_selected_rows _ _ Hvotes) as Hrows.
  eapply Forall_impl; [|exact Hrows].
  intros v (row & _ & Hrow & _ & _ & Hin). simpl.
  rewrite Forall_forall in HP. specialize (HP row Hrow).
  rewrite Forall_forall in HP, Hin |- *. auto.
Qed.

Lemma duo_competence vote :
  exists c, estimate_competence (duo vote) [[0; 1]]%Z None None
            = Some [[c; c]].
Proof. eexists. reflexivity. Qed.

Lemma duo_selection vote :
  selected_classifiers np_argsort (duo vote) [[0; 1]]%Z None None
  = Some [[1; 0]%nat].
Proof.
  unfold selected_classifiers, masked_competence.
  destruct (duo_competence vote) as [c ->].
  unfold select, np_argsort. simpl. decide_reals. reflexivity.
Qed.

Lemma predict_proba_rows_sum_to_one_witness :
  exists proba,
    predict_proba_with_ds np_argsort (duo "hard") (Some [[1; 0]]%Z) None
      [[0; 1]]%Z None None = Some proba /\
    Forall (fun row => npsum row = Fin 1) proba.
Proof.
  assert (E : predict_proba_with_ds np_argsort (duo "hard")
                (Some [[1; 0]]%Z) None [[0; 1]]%Z None None
              = Some [vote_proba [1; 1]%nat]).
  { unfold predict_proba_with_ds. rewrite duo_selection. reflexivity. }
  destruct (duo_competence "hard") as [c Hc].
  eexists. split; [exact E|].
  eapply (@predict_proba_rows_sum_to_one np_argsort np_argsort_spec
            (duo "hard") (Some [[1; 0]]%Z) None [[0; 1]]%Z None None 2%Z
            [[c; c]]).
  - reflexivity.
  - lia.
  - unfold masked_competence. rewrite Hc. reflexivity.
  - repeat constructor.
  - apply valid_predictions_selected.
    repeat constructor; unfold valid_label; simpl; lia.
  - exact E.
Defined.

(** ** argmax *)

Lemma np_le_true a b : np_le a b = true -> np_max_le a b.
Proof.
  destruct a as [x|], b as [y|]; simpl; try discriminate.
  destruct (Rle_dec x y); [auto | discriminate].
Qed.

Lemma np_le_false a m : np_le a (Fin m) = false -> ~ np_max_le a (Fin m).
Proof.
  destruct a as [x|]; simpl; [|tauto].
  destruct (Rle_dec x m); [discriminate | auto].
Qed.

Lemma np_max_le_trans a b c : np_max_le a b -> np_max_le b c -> np_max_le a c.
Proof.
  destruct a, b, c; simpl; try tauto. intros; lra.
Qed.

Lemma np_max_le_total a b : np_max_le a b \/ np_max_le b a.
Proof. destruct a as [x|], b as [y|]; simpl; auto. lra. Qed.

Lemma np_max_le_refl a : np_max_le a a.
Proof. destruct a; simpl; auto. lra. Qed.

(** The scan keeps the first maximum of what it has read. *)
Lemma argmax_from_first_maximum l : forall pre mp k,
  first_maximum pre k -> mp = nth k pre NaN ->
  first_maximum (pre ++ l) (argmax_from mp k (length pre) l).
Proof.
  induction l as [|x l IH]; intros pre mp k Hk Hmp.
  - rewrite app_nil_r. destruct mp; exact Hk.
  - destruct mp as [m|].
    + simpl. replace (pre ++ x :: l) with ((pre ++ [x]) ++ l)
        by (rewrite <- app_assoc; reflexivity).
      replace (S (length pre)) with (length (pre ++ [x]))
        by (rewrite length_app; simpl; lia).
      destruct Hk as (Hlt & Hmax & Hfirst).
      destruct (np_le x (Fin m)) eqn:Hx.
      * apply IH.
        -- repeat split.
           ++ rewrite length_app; simpl; lia.
           ++ intros j Hj. rewrite length_app in Hj; simpl in Hj.
              rewrite (app_nth1 pre [x] NaN Hlt).
              destruct (Nat.lt_ge_cases j (length pre)) as [Hjl|Hjl].
              ** rewrite app_nth1 by assumption. auto.
              ** replace j with (length pre) by lia.
                 rewrite app_nth2, Nat.sub_diag by lia. simpl.
                 rewrite <- Hmp. apply np_le_true, Hx.
           ++ intros j Hj. rewrite !app_nth1 by lia. auto.
        -- rewrite app_nth1 by assumption. exact Hmp.
      * apply IH.
        -- apply np_le_false in Hx.
           assert (Hnew : nth (length pre) (pre ++ [x]) NaN = x)
             by (rewrite app_nth2, Nat.sub_diag by lia; reflexivity).
           repeat split.
           ++ rewrite length_app; simpl; lia.
           ++ intros j Hj. rewrite length_app in Hj; simpl in Hj.
              rewrite Hnew.
              destruct (Nat.lt_ge_cases j (length pre)) as [Hjl|Hjl].
              ** rewrite app_nth1 by assumption.
                 apply np_max_le_trans with (Fin m).
                 --- rewrite Hmp. auto.
                 --- destruct (np_max_le_total x (Fin m)); tauto.
              ** replace j with (length pre) by lia. rewrite Hnew.
                 apply np_max_le_refl.
           ++ intros j Hj. rewrite Hnew, app_nth1 by assumption.
              intros Hle. apply Hx.
              apply np_max_le_trans with (nth j pre NaN); [exact Hle|].
              rewrite Hmp. auto.
        -- rewrite app_nth2, Nat.sub_diag by lia. reflexivity.
    + simpl. destruct Hk as (Hlt & Hmax & Hfirst). repeat split.
      * rewrite length_app; lia.
      * intros j _. rewrite (app_nth1 pre (x :: l) NaN Hlt), <- Hmp.
        destruct (nth j (pre ++ x :: l) NaN); exact I.
      * intros j Hj. rewrite !app_nth1 by lia. auto.
Qed.

Lemma first_maximum_unique row a b :
  first_maximum row a -> first_maximum row b -> a = b.
Proof.
  intros (Ha & Hamax & Hafirst) (Hb & Hbmax & Hbfirst).
  destruct (Nat.lt_trichotomy a b) as [H|[H|H]]; [|assumption|].
  - exfalso. apply (Hbfirst a H). auto.
  - exfalso. apply (Hafirst b H). auto.
Qed.

Lemma np_argmax_spec row label :
  np_argmax row = Some label <-> first_maximum row label.
Proof.
  destruct row as [|x l]; simpl.
  - split; [discriminate | intros (H & _); simpl in H; lia].
  - assert (H0 : first_maximum [x] 0).
    { repeat split; simpl; try lia.
      intros [|j] Hj; [apply np_max_le_refl | lia]. }
    pose proof (@argmax_from_first_maximum l [x] x 0%nat H0 eq_refl) as Hs.
    simpl in Hs. split.
    + intros H. injection H as <-. exact Hs.
    + intros H. f_equal. eapply first_maximum_unique; eauto.
Qed.

(** ** Labels and the arguments a voting mode reads *)

Section ClassifyFacts.

Variable argsort : list R -> list nat.

(** C6.  [classify_with_ds] returns, for each sample, the class index
    that attains the maximum of the sample's row of
    [predict_proba_with_ds]; among several maximal entries it is the lowest
    index. *)
Theorem classify_is_first_argmax (self : DESMI)
    (predictions : option (list (list Z)))
    (probabilities : option (list (list (list R))))
    (neighbors : list (list Z))
    (distances : option (list (list R)))
    (DFP_mask : option (list (list R)))
    (predicted_label : list nat) :
  classify_with_ds argsort self predictions probabilities neighbors
    distances DFP_mask = Some predicted_label <->
  exists proba,
    predict_proba_with_ds argsort self predictions probabilities neighbors
      distances DFP_mask = Some proba /\
    Forall2 first_maximum proba predicted_label.
Proof.
  unfold classify_with_ds.
  destruct (predict_proba_with_ds argsort self predictions probabilities
              neighbors distances DFP_mask) as [proba|]; simpl.
  - rewrite mapM_Forall2. split.
    + intros H. exists proba. split; [reflexivity|].
      eapply Forall2_impl; [|exact H]. intros; now apply np_argmax_spec.
    + intros (proba' & E & H). injection E as <-.
      eapply Forall2_impl; [|exact H]. intros; now apply np_argmax_spec.
  - split; [discriminate | intros (? & E & _); discriminate].
Qed.

(** C9.  In hard-voting mode the result of [predict_proba_with_ds] is the
    same for any two values of [probabilities], [None] included; in the
    other mode it is the same for any two values of [predictions]. *)
Theorem vote_mode_reads_its_own_argument (self : DESMI)
    (predictions predictions' : option (list (list Z)))
    (probabilities probabilities' : option (list (list (list R))))
    (competence_region : list (list Z))
    (distances : option (list (list R)))
    (DFP_mask : option (list (list R))) :
  (voting self = "hard"%string ->
   predict_proba_with_ds argsort self predictions probabilities
     competence_region distances DFP_mask =
   predict_proba_with_ds argsort self predictions probabilities'
     competence_region distances DFP_mask) /\
  (voting self <> "hard"%string ->
   predict_proba_with_ds argsort self predictions probabilities
     competence_region distances DFP_mask =
   predict_proba_with_ds argsort self predictions' probabilities
     competence_region distances DFP_mask).
Proof.
  unfold predict_proba_with_ds.
  destruct (String.eqb_spec (voting self) "hard") as [Hv|Hv]; split;
    intros Hmode; try congruence; reflexivity.
Qed.

End ClassifyFacts.

(** C10.  Two calls of [estimate_competence] that differ only in
    [distances] and [predictions], [None] included, return the same
    competences. *)
Theorem competence_ignores_distances_and_predictions (self : DESMI)
    (competence_region : list (list Z))
    (distances distances' : option (list (list R)))
    (predictions predictions' : option (list (list Z))) :
  estimate_competence self competence_region distances predictions =
  estimate_competence self competence_region distances' predictions'.
Proof. reflexivity. Qed.

Lemma vote_mode_reads_its_own_argument_witness :
  predict_proba_with_ds np_argsort (duo "hard") (Some [[1; 0]]%Z) None
    [[0; 1]]%Z None None =
  predict_proba_with_ds np_argsort (duo "hard") (Some [[1; 0]]%Z)
    (Some [[[1 / 4; 3 / 4]; [1 / 2; 1 / 2]]]) [[0; 1]]%Z None None /\
  predict_proba_with_ds np_argsort (duo "soft") (Some [[1; 0]]%Z)
    (Some [[[1 / 4; 3 / 4]; [1 / 2; 1 / 2]]]) [[0; 1]]%Z None None =
  predict_proba_with_ds np_argsort (duo "soft") None
    (Some [[[1 / 4; 3 / 4]; [1 / 2; 1 / 2]]]) [[0; 1]]%Z None None.
Proof.
  split.
  - apply (vote_mode_reads_its_own_argument np_argsort (duo "hard")
             (Some [[1; 0]]%Z) None None
             (Some [[[1 / 4; 3 / 4]; [1 / 2; 1 / 2]]])
             [[0; 1]]%Z None None).
    reflexivity.
  - apply (vote_mode_reads_its_own_argument np_argsort (duo "soft")
             (Some [[1; 0]]%Z) None
             (Some [[[1 / 4; 3 / 4]; [1 / 2; 1 / 2]]]) None
             [[0; 1]]%Z None None).
    discriminate.
Defined.

(** ** Pruning on concrete estimators *)

Lemma pruned_competence :
  exists w0 w1, estimate_competence pruned [[0; 1]]%Z None None
                = Some [[0 * w0 + (0 * w1 + 0); 0 * w0 + (0 * w1 + 0)]].
Proof. eexists. eexists. reflexivity. Qed.

Lemma pruned_selection :
  selected_classifiers np_argsort pruned [[0; 1]]%Z None (Some [[1; 0]])
  = Some [[1%nat]].
Proof.
  unfold selected_classifiers, masked_competence.
  destruct pruned_competence as (w0 & w1 & ->).
  change (DFP pruned) with true. cbv iota.
  unfold bind at 2. unfold np_mul2.
  change (broadcast (broadcast (fun x y => Some (x * y)))
            [[0 * w0 + (0 * w1 + 0); 0 * w0 + (0 * w1 + 0)]] [[1; 0]])
    with (Some [[(0 * w0 + (0 * w1 + 0)) * 1; (0 * w0 + (0 * w1 + 0)) * 0]]).
  unfold bind, select, as_matrix, np_argsort.
  change (N_ pruned) with (Some 1%Z). simpl.
  decide_reals. reflexivity.
Qed.

Lemma dfp_counterexample :
  DFP pruned = true /\ N_ pruned = Some 1%Z /\
  selected_classifiers np_argsort pruned [[0; 1]]%Z None (Some [[1; 0]])
    = Some [[1%nat]] /\
  (1 <= count_unmasked [1%R; 0%R])%nat /\
  ~ excludes_pruned [1; 0] [1%nat].
Proof.
  split; [reflexivity|]. split; [reflexivity|].
  split; [exact pruned_selection|]. split.
  - unfold count_unmasked, Reqb. simpl. decide_reals. simpl. lia.
  - intros H. apply (H 1%nat); simpl; auto.
Qed.

(** ** Pruning with eligible classifiers to spare *)

Lemma mapM_combine {A B C} (f : A -> B -> option C) (g : A -> B -> C) xs ys :
  Forall2 (fun x y => f x y = Some (g x y)) xs ys ->
  mapM (fun p => f (fst p) (snd p)) (combine xs ys) = Some (zip_with g xs ys).
Proof.
  induction 1 as [|x y xs ys Hxy Hrest IH]; simpl; [reflexivity|].
  rewrite Hxy, IH. reflexivity.
Qed.

(** Operands of one shape pair up entry by entry. *)
Lemma broadcast_zip {A B C} (f : A -> B -> option C) (g : A -> B -> C) xs ys :
  Forall2 (fun x y => f x y = Some (g x y)) xs ys ->
  broadcast f xs ys = Some (zip_with g xs ys).
Proof.
  intros H. pose proof (@mapM_combine _ _ _ f g xs ys H) as Hm.
  pose proof (Forall2_length_eq H) as Hlen.
  unfold broadcast.
  destruct xs as [|x [|x' xs]], ys as [|y [|y' ys]]; simpl in *;
    try discriminate; try exact Hm.
  injection Hlen as Hlen. rewrite Hlen, Nat.eqb_refl. simpl in *. exact Hm.
Qed.

Lemma np_mul2_same_shape a b :
  Forall2 (fun x y => length x = length y) a b ->
  np_mul2 a b = Some (zip_with (zip_with Rmult) a b).
Proof.
  intros H. unfold np_mul2. apply broadcast_zip.
  eapply Forall2_impl; [|exact H]. intros x y Hxy. simpl.
  apply broadcast_zip. clear - Hxy. revert y Hxy.
  induction x as [|u x IH]; intros [|v y] Hxy; try discriminate; constructor;
    [reflexivity | apply IH; simpl in Hxy; congruence].
Qed.

Lemma zip_mult_nth c m i :
  length c = length m ->
  nth i (zip_with Rmult c m) 0 = nth i c 0 * nth i m 0.
Proof.
  revert m i; induction c as [|x c IH]; intros [|y m] [|i] H; simpl in *;
    try discriminate; try lra.
  apply IH. congruence.
Qed.

Lemma filter_length_le {A} (f g : A -> bool) l :
  (forall x, In x l -> f x = true -> g x = true) ->
  (length (filter f l) <= length (filter g l))%nat.
Proof.
  induction l as [|x l IH]; intros H; simpl; [lia|].
  assert (IH' : (length (filter f l) <= length (filter g l))%nat)
    by (apply IH; intros; apply H; simpl; auto).
  destruct (f x) eqn:Hf.
  - rewrite (H x (or_introl eq_refl) Hf). simpl. lia.
  - destruct (g x); simpl; lia.
Qed.

Section PruningFacts.

Variable argsort : list R -> list nat.
Hypothesis argsort_ok : argsort_spec argsort.

(** When [n] columns are positive, a column that is not positive is not
    among the [n] selected. *)
Lemma positive_columns_fill n row j :
  (n <= length (filter (positive_at row) (seq 0 (length row))))%nat ->
  nth j row 0 <= 0 ->
  ~ In j (select_reference argsort n row).
Proof.
  intros Hn Hj Hin.
  set (pos := filter (positive_at row) (seq 0 (length row))) in *.
  assert (Hnl : (n <= length row)%nat).
  { pose proof (filter_length_le (positive_at row) (fun _ => true)
                  (seq 0 (length row)) (fun _ _ _ => eq_refl)) as Hle.
    fold pos in Hle.
    rewrite forallb_filter_id, length_seq in Hle
      by (apply forallb_forall; reflexivity).
    lia. }
  destruct (select_reference_top argsort_ok row Hnl)
    as (Hlen & Hnd & Hrange & _ & Htop).
  set (chosen := select_reference argsort n row) in *.
  assert (Hincl : incl pos (remove Nat.eq_dec j chosen)).
  { intros i Hi. unfold pos in Hi. apply filter_In in Hi as [Hi Hpos].
    apply in_seq in Hi. unfold positive_at, Rltb in Hpos.
    destruct (Rlt_dec 0 (nth i row 0)) as [Hp|]; [|discriminate].
    apply in_in_remove.
    - intros ->. lra.
    - destruct (In_dec Nat.eq_dec i chosen) as [|Hout]; [assumption|].
      exfalso. assert (nth i row 0 <= nth j row 0) by (apply Htop; auto; lia).
      lra. }
  assert (Hndp : NoDup pos) by (apply NoDup_filter, seq_NoDup).
  pose proof (NoDup_incl_length Hndp Hincl) as Hle.
  pose proof (remove_length_lt Nat.eq_dec chosen j Hin) as Hlt.
  lia.
Qed.

(** C7, as the code has it.  With pruning on and a mask of the shape of
    the competences, in every sample where at least [N] classifiers have
    mask entry 1 and a positive competence, no classifier with mask entry 0
    is in the sample's row of selected classifiers. *)
Theorem dfp_excludes_pruned (self : DESMI)
    (competence_region : list (list Z))
    (distances : option (list (list R)))
    (DFP_mask : list (list R)) (N : Z)
    (competence : list (list R)) (selected : list (list nat)) :
  DFP self = true ->
  N_ self = Some N ->
  (0 <= N)%Z ->
  estimate_competence self competence_region distances None
    = Some competence ->
  Forall2 (fun c m => length c = length m) competence DFP_mask ->
  selected_classifiers argsort self competence_region distances
    (Some DFP_mask) = Some selected ->
  Forall2 (fun cm chosen =>
             (Z.to_nat N <= count_eligible (fst cm) (snd cm))%nat ->
             excludes_pruned (snd cm) chosen)
          (combine competence DFP_mask) selected.
Proof.
  intros Hdfp HN Hpos Hest Hshape Hsel.
  unfold selected_classifiers, masked_competence in Hsel.
  rewrite Hest, Hdfp in Hsel. simpl in Hsel.
  rewrite (np_mul2_same_shape Hshape) in Hsel. simpl in Hsel.
  rewrite (select_eq _ _ _ HN) in Hsel. injection Hsel as <-. simpl.
  clear Hest.
  induction Hshape as [|c m cs ms Hcm Hrest IH]; simpl;
    [constructor | constructor; [|exact IH]].
  simpl. intros Hcount j Hj Hzero.
  rewrite slice_to_nonneg by assumption.
  apply positive_columns_fill.
  - etransitivity; [exact Hcount|]. unfold count_eligible.
    rewrite zip_with_length, <- Hcm, Nat.min_id.
    apply filter_length_le. intros i _ Hi.
    unfold eligible, positive_at, Reqb, Rltb in *.
    rewrite zip_mult_nth by assumption.
    destruct (Req_dec_T (nth i m 0) 1) as [E|]; [|discriminate].
    destruct (Rlt_dec 0 (nth i c 0)); [|discriminate].
    rewrite E. destruct (Rlt_dec 0 (nth i c 0 * 1)); [reflexivity | lra].
  - rewrite zip_mult_nth, Hzero by assumption. lra.
Qed.

End PruningFacts.

Lemma keen_competence :
  exists w0 w1, 0 < w0 /\ 0 < w1 /\
    estimate_competence keen [[0; 1]]%Z None None
    = Some [[1 * w0 + (1 * w1 + 0); 1 * w0 + (1 * w1 + 0)]].
Proof.
  assert (Hpos : Forall (fun x => 0 < x)
                   (normalize_row [raw_weight keen 1; raw_weight keen 1])).
  { apply normalize_row_pos.
    repeat constructor; apply raw_weight_above_margin; simpl; lra. }
  exists (nth 0 (normalize_row [raw_weight keen 1; raw_weight keen 1]) 0).
  exists (nth 1 (normalize_row [raw_weight keen 1; raw_weight keen 1]) 0).
  split; [apply Forall_nth_lt; [exact Hpos | simpl; lia]|].
  split; [apply Forall_nth_lt; [exact Hpos | simpl; lia]|].
  reflexivity.
Qed.

Lemma dfp_excludes_pruned_witness :
  exists competence selected,
    estimate_competence keen [[0; 1]]%Z None None = Some competence /\
    selected_classifiers np_argsort keen [[0; 1]]%Z None (Some [[1; 0]])
      = Some selected /\
    (1 <= count_eligible (nth 0%nat competence []) [1%R; 0%R])%nat /\
    Forall2 (fun cm chosen =>
               (1 <= count_eligible (fst cm) (snd cm))%nat ->
               excludes_pruned (snd cm) chosen)
            (combine competence [[1; 0]]) selected.
Proof.
  destruct keen_competence as (w0 & w1 & Hw0 & Hw1 & E).
  eexists. eexists. split; [exact E|]. split; [reflexivity|]. split.
  - unfold count_eligible, eligible, Reqb, Rltb. simpl.
    destruct (Req_dec_T 1 1); [|lra].
    destruct (Rlt_dec 0 (1 * w0 + (1 * w1 + 0))); [|lra]. simpl. lia.
  - apply (@dfp_excludes_pruned np_argsort np_argsort_spec keen [[0; 1]]%Z
             None [[1; 0]] 1%Z).
    + reflexivity.
    + reflexivity.
    + lia.
    + exact E.
    + repeat constructor.
    + reflexivity.
Defined.

(** ** Parameter validation *)

Lemma py_int_floor x :
  ((py_int x <= 0)%Z /\ (Zfloor x < 1)%Z) \/
  ((0 < py_int x)%Z /\ py_int x = Zfloor x).
Proof.
  unfold py_int. destruct (Rlt_dec x 0) as [Hneg|Hpos].
  - left. split.
    + assert (0 <= Zfloor (- x))%Z by (apply Zfloor_lub; simpl; lra). lia.
    + apply lt_IZR. pose proof (Zfloor_bound x). lra.
  - destruct (Z_lt_le_dec 0 (Zfloor x)); [right | left]; split; lia.
Qed.

Lemma Rleb_true x y : Rleb x y = true <-> x <= y.
Proof. unfold Rleb. destruct (Rle_dec x y); split; auto; discriminate. Qed.

Lemma Rltb_true x y : Rltb x y = true <-> x < y.
Proof. unfold Rltb. destruct (Rlt_dec x y); split; auto; discriminate. Qed.




Lemma configured_selection_size a vote :
  py_int (INR (n_classifiers_ (configured a vote))
          * pct_accuracy (configured a vote)) = 4%Z /\
  selection_size (configured a vote) = 4%Z.
Proof.
  unfold selection_size.
  replace (INR (n_classifiers_ (configured a vote))
           * pct_accuracy (configured a vote)) with 4 by (simpl; lra).
  unfold py_int. destruct (Rlt_dec 4 0); [lra|].
  rewrite (Zfloor_eq 4 4) by lra. auto.
Qed.


(** * Further properties of the methods *)

(** ** Class frequencies and weights *)

Lemma np_index_nonneg {A} (a : list A) i :
  (0 <= i)%Z -> np_index a i = nth_error a (Z.to_nat i).
Proof.
  intros H. unfold np_index.
  destruct (Z.leb_spec 0 i); [reflexivity | lia].
Qed.

Lemma bincount_lookup x cf t :
  bincount x = Some cf -> In t x ->
  np_index cf t = Some (count_occ Z.eq_dec x t).
Proof.
  unfold bincount. intros H Ht. inv_bind H. injection H as <-.
  apply guard_Some in E. rewrite forallb_forall in E.
  assert (H0 : (0 <= t)%Z) by (apply Z.leb_le, E, Ht).
  rewrite np_index_nonneg by assumption.
  pose proof (fold_max_bound x t Ht) as Hmax.
  rewrite nth_error_map, nth_error_seq.
  destruct (Nat.ltb_spec (Z.to_nat t)
              (Z.to_nat (fold_right Z.max (-1)%Z x + 1)));
    [|lia].
  simpl. rewrite Z2Nat.id by assumption. reflexivity.
Qed.

(** X2.  The frequency looked up for a neighbour is the number of DSEL
    samples that carry the neighbour's label. *)
Theorem neighbor_frequency_counts_label (self : DESMI)
    (competence_region : list (list Z)) (targets : list (list Z))
    (num : list (list nat)) :
  np_take (DSEL_target_ self) competence_region = Some targets ->
  neighbor_frequencies self competence_region = Some num ->
  num = map (map (count_occ Z.eq_dec (DSEL_target_ self))) targets.
Proof.
  intros Ht Hn. unfold neighbor_frequencies in Hn.
  destruct (bincount (DSEL_target_ self)) as [cf|] eqn:Hcf; [|discriminate].
  simpl in Hn. rewrite Ht in Hn. simpl in Hn.
  pose proof (np_take_In _ _ Ht) as Hin.
  unfold np_take in Hn. apply mapM_Forall2 in Hn.
  clear Ht. revert Hin. induction Hn as [|row r targets num Hrow Hrest IH];
    intros Hin; [reflexivity|].
  inversion Hin as [|? ? Hrow_in Hrest_in]; subst. simpl.
  f_equal; [|apply IH; assumption].
  apply mapM_Forall2 in Hrow. clear - Hrow Hrow_in Hcf.
  induction Hrow as [|t n row r Htn Hrest IH]; [reflexivity|].
  inversion Hrow_in; subst. simpl.
  rewrite (@bincount_lookup _ _ t Hcf) in Htn by assumption.
  injection Htn as <-. f_equal. apply IH. assumption.
Qed.

Lemma neighbor_frequency_counts_label_witness :
  [[3; 1]]%nat
  = map (map (count_occ Z.eq_dec (DSEL_target_ demo))) [[0; 1]]%Z.
Proof.
  apply (@neighbor_frequency_counts_label demo [[0; 3]]%Z [[0; 1]]%Z
           [[3; 1]]%nat); reflexivity.
Defined.

Lemma rescaled_nonzero self freqs :
  rescaled self freqs -> Rsum (map (raw_weight self) freqs) <> 0.
Proof.
  unfold rescaled. pose proof guard_margin_bounds. lra.
Qed.

(** X3.  For a sample whose raw weights have an L1 norm of at least
    [guard_margin], a neighbour's weight is its raw weight over the plain
    sum of the raw weights of the sample's neighbours: no raw weight is
    negative, so the absolute values of the norm change nothing. *)
Theorem neighbor_weight_formula (self : DESMI)
    (competence_region : list (list Z)) (num : list (list nat))
    (W : list (list R)) :
  neighbor_frequencies self competence_region = Some num ->
  neighbor_weights self competence_region = Some W ->
  Forall2 (fun freqs row =>
             rescaled self freqs ->
             row = map (fun n => raw_weight self n
                                 / Rsum (map (raw_weight self) freqs)) freqs)
          num W.
Proof.
  intros Hn HW. rewrite (neighbor_weights_of_frequencies _ _ Hn HW).
  apply Forall2_map_right, Forall_forall. intros freqs _ Hres.
  rewrite normalize_row_explicit
    by (apply raw_weights_nonneg || apply rescaled_nonzero, Hres).
  rewrite map_map. reflexivity.
Qed.

Lemma neighbor_weight_formula_witness :
  exists W,
    neighbor_weights demo [[0; 3]]%Z = Some W /\
    rescaled demo [3; 1]%nat /\
    Forall2 (fun freqs row =>
               rescaled demo freqs ->
               row = map (fun n => raw_weight demo n
                                   / Rsum (map (raw_weight demo) freqs))
                         freqs)
            [[3; 1]]%nat W.
Proof.
  eexists. split; [reflexivity|]. split; [exact demo_rescaled|].
  apply (@neighbor_weight_formula demo [[0; 3]]%Z [[3; 1]]%nat);
    reflexivity.
Defined.

(** A larger class frequency gives a smaller raw weight, as long as
    [np.exp] does not overflow for the smaller one. *)
Lemma raw_weight_decreasing self n m :
  0 < pyval (alpha self) -> (n < m)%nat ->
  exp (pyval (alpha self) * INR n) <= float_max ->
  raw_weight self m < raw_weight self n.
Proof.
  intros Ha Hnm Hfin.
  pose proof (raw_weight_pos self n Hfin) as Hpos.
  destruct (Rlt_dec float_max (exp (pyval (alpha self) * INR m)))
    as [Hover|Hfin'].
  - rewrite (raw_weight_overflow self m Hover). exact Hpos.
  - rewrite (raw_weight_finite self n Hfin).
    rewrite (raw_weight_finite self m) by lra.
    assert (Hlt : pyval (alpha self) * INR n < pyval (alpha self) * INR m).
    { apply Rmult_lt_compat_l; [assumption | apply lt_INR, Hnm]. }
    apply exp_increasing in Hlt.
    pose proof (exp_pos (pyval (alpha self) * INR n)).
    pose proof (exp_pos (pyval (alpha self) * INR m)).
    unfold Rdiv. rewrite !Rmult_1_l.
    apply Rinv_lt_contravar; [|lra].
    apply Rmult_lt_0_compat; lra.
Qed.

(** X4.  With a positive [alpha], of two neighbours of a sample the one
    whose class is rarer in DSEL gets the strictly larger weight, provided
    [np.exp] does not overflow for the rarer class. *)
Theorem minority_neighbors_weigh_more (self : DESMI)
    (competence_region : list (list Z)) (num : list (list nat))
    (W : list (list R)) (sample p q : nat) :
  0 < pyval (alpha self) ->
  neighbor_frequencies self competence_region = Some num ->
  neighbor_weights self competence_region = Some W ->
  (p < length (nth sample num []))%nat ->
  (q < length (nth sample num []))%nat ->
  (nth p (nth sample num []) 0 < nth q (nth sample num []) 0)%nat ->
  exp (pyval (alpha self) * INR (nth p (nth sample num []) 0%nat))
    <= float_max ->
  nth q (nth sample W []) 0 < nth p (nth sample W []) 0.
Proof.
  intros Ha Hn HW Hp Hq Hpq Hfin.
  rewrite (neighbor_weights_of_frequencies _ _ Hn HW).
  assert (Hs : (sample < length num)%nat).
  { destruct (Nat.lt_ge_cases sample (length num)); [assumption|].
    rewrite nth_overflow in Hp by assumption. simpl in Hp. lia. }
  rewrite (nth_indep _ [] (normalize_row (map (raw_weight self) [])))
    by (rewrite length_map; exact Hs).
  rewrite (map_nth (fun r => normalize_row (map (raw_weight self) r))).
  set (freqs := nth sample num []) in *.
  destruct (normalize_row_scale (raw_weights_nonneg self freqs))
    as (s & Hspos & ->).
  rewrite map_map.
  set (f := fun n => raw_weight self n / s).
  rewrite (nth_indep _ 0 (f 0%nat)) by (rewrite length_map; exact Hq).
  rewrite (nth_indep _ 0 (f 0%nat) (n := p)) by (rewrite length_map; exact Hp).
  rewrite !map_nth. unfold f.
  apply Rmult_lt_compat_r; [apply Rinv_0_lt_compat, Hspos|].
  apply raw_weight_decreasing; assumption.
Qed.

Lemma minority_neighbors_weigh_more_witness :
  exists W,
    neighbor_weights demo [[0; 3]]%Z = Some W /\
    nth 0 (nth 0 W []) 0 < nth 1 (nth 0 W []) 0.
Proof.
  eexists. split; [reflexivity|].
  apply (@minority_neighbors_weigh_more demo [[0; 3]]%Z [[3; 1]]%nat _
           0%nat 1%nat 0%nat).
  - simpl. lra.
  - reflexivity.
  - reflexivity.
  - simpl. lia.
  - simpl. lia.
  - simpl. lia.
  - apply exp_small. simpl. lra.
Defined.

(** ** Competence values *)

Lemma nth_map_rows {A B} (f : list A -> list B) (l : list (list A)) s :
  (s < length l)%nat -> nth s (map f l) [] = f (nth s l []).
Proof.
  intros Hs. rewrite (nth_indep _ [] (f [])) by (rewrite length_map; exact Hs).
  apply map_nth.
Qed.

(** What [estimate_competence] returns, sample by sample. *)
Lemma estimate_competence_entries self region distances predictions comp :
  is_matrix region ->
  is_matrix (DSEL_processed_ self) ->
  estimate_competence self region distances predictions = Some comp ->
  exists num W cn,
    neighbor_frequencies self region = Some num /\
    neighbor_weights self region = Some W /\
    np_take (DSEL_processed_ self) region = Some cn /\
    length W = length region /\ length cn = length region /\
    forall s, (s < length region)%nat ->
      nth s W [] = normalize_row (map (raw_weight self) (nth s num [])) /\
      length (nth s W []) = ncols region /\
      length (nth s cn []) = ncols region /\
      Forall (fun w => 0 <= w) (nth s W []) /\
      forall j, (j < ncols (DSEL_processed_ self))%nat ->
        nth j (nth s comp []) 0 =
        Rsum (zip_with (fun flags w => b2r (nth j flags false) * w)
                       (nth s cn []) (nth s W [])).
Proof.
  intros Hreg Hproc H. unfold estimate_competence in H.
  inv_bind H. inv_bind H. inv_bind H. injection H as <-.
  rename x into W, x0 into cn.
  destruct (neighbor_weights_rows self Hreg E) as [Hlen Hrows].
  pose proof (np_take_shape _ _ E0) as Hshape.
  pose proof (Forall2_length_eq Hshape) as Hlen2.
  pose proof (np_take_In _ _ E0) as Hin.
  assert (Hcn : Forall (rect (ncols (DSEL_processed_ self))) cn).
  { eapply Forall_impl; [|exact Hin]. intros row Hrow.
    eapply Forall_impl; [|exact Hrow]. intros r Hr.
    unfold is_matrix, rect in Hproc. rewrite Forall_forall in Hproc. auto. }
  pose proof (neighbor_weights_inv _ _ E) as (num & Hnum & _ & _ & _ & HW).
  exists num, W, cn.
  assert (Hln : length num = length region)
    by (rewrite HW, length_map in Hlen; exact Hlen).
  repeat split; try assumption; try lia.
  - rewrite HW.
    apply (nth_map_rows (fun r => normalize_row (map (raw_weight self) r))).
    lia.
  - apply (@Forall_nth_lt _ _ W s []) in Hrows; [apply Hrows | lia].
  - assert (Hk : forall i o, Forall2 (fun (i : list Z) (o : list (list bool)) =>
                                 length o = length i) i o ->
                 forall s, (s < length i)%nat -> rect (ncols i) i ->
                 length (nth s o []) = ncols i).
    { clear. intros i o HF. induction HF as [|a b i o Hab HF IH];
        intros s Hs Hr; simpl in *; [lia|].
      destruct s as [|s]; [assumption|].
      inversion Hr as [|? ? Ha Hi]; subst.
      destruct i as [|a' i]; [simpl in Hs; lia|].
      inversion Hi as [|? ? Ha' _]; subst.
      rewrite <- Ha'. apply IH; [simpl in *; lia|].
      simpl. rewrite Ha'. exact Hi. }
    apply Hk; assumption.
  - apply (@Forall_nth_lt _ _ W s []) in Hrows; [apply Hrows | lia].
  - intros j Hj.
    rewrite (zip_with_nth (competence_row (ncols (DSEL_processed_ self)))
               cn W [] [] []) by lia.
    apply competence_row_nth; [|assumption].
    apply Forall_nth_lt; [assumption | lia].
Qed.

Lemma weighted_flags_all (f : list bool -> bool) (cn : list (list bool)) w b :
  length cn = length w ->
  Forall (fun flags => f flags = b) cn ->
  Rsum (zip_with (fun flags wi => b2r (f flags) * wi) cn w) = b2r b * Rsum w.
Proof.
  intros Hlen Hall. revert w Hlen.
  induction Hall as [|flags cn Hf Hall IH]; intros [|wi w] Hlen;
    try discriminate; unfold Rsum in *; simpl; [lra|].
  rewrite IH by (simpl in Hlen; congruence). rewrite Hf. lra.
Qed.

Lemma weighted_flags_monotone (f g : list bool -> bool) cn w :
  Forall (fun x => 0 <= x) w ->
  Forall (fun flags => f flags = true -> g flags = true) cn ->
  Rsum (zip_with (fun flags wi => b2r (f flags) * wi) cn w) <=
  Rsum (zip_with (fun flags wi => b2r (g flags) * wi) cn w).
Proof.
  intros Hw Hfg. revert w Hw.
  induction Hfg as [|flags cn Hf Hfg IH]; intros [|wi w] Hw;
    unfold Rsum in *; simpl; try lra.
  inversion Hw; subst. specialize (IH w H2).
  destruct (f flags); [rewrite Hf by reflexivity|destruct (g flags)];
    simpl; lra.
Qed.

Lemma weighted_flags_uniform (f : list bool -> bool) cn w u :
  length cn = length w ->
  Forall (fun x => x = u) w ->
  Rsum (zip_with (fun flags wi => b2r (f flags) * wi) cn w)
  = INR (length (filter f cn)) * u.
Proof.
  intros Hlen Hu. revert cn Hlen.
  induction Hu as [|wi w Hwi Hu IH]; intros [|flags cn] Hlen;
    try discriminate; unfold Rsum in *; simpl; [lra|].
  rewrite IH by (simpl in Hlen; congruence). subst wi.
  destruct (f flags); simpl length; [rewrite S_INR|]; simpl; lra.
Qed.

(** X5.  A classifier that is wrong on every neighbour of a sample has
    competence 0 there; one that is right on every neighbour has
    competence 1, provided the raw weights of the sample have an L1 norm of
    at least [guard_margin]. *)
Theorem unanimous_competence (self : DESMI)
    (competence_region : list (list Z))
    (distances : option (list (list R)))
    (predictions : option (list (list Z)))
    (competence : list (list R)) (num : list (list nat))
    (correct_num : list (list (list bool)))
    (sample classifier : nat) (b : bool) :
  is_matrix competence_region ->
  is_matrix (DSEL_processed_ self) ->
  estimate_competence self competence_region distances predictions
    = Some competence ->
  neighbor_frequencies self competence_region = Some num ->
  np_take (DSEL_processed_ self) competence_region = Some correct_num ->
  (sample < length competence_region)%nat ->
  (classifier < ncols (DSEL_processed_ self))%nat ->
  Forall (fun flags => nth classifier flags false = b)
         (nth sample correct_num []) ->
  (b = true -> rescaled self (nth sample num [])) ->
  nth classifier (nth sample competence []) 0 = b2r b.
Proof.
  intros Hreg Hproc Hest Hnum Hcn Hs Hj Hall Hres.
  destruct (@estimate_competence_entries _ _ _ _ _ Hreg Hproc Hest)
    as (num' & W & cn & Hnum' & _ & Hcn' & _ & _ & Hrows).
  rewrite Hcn in Hcn'. injection Hcn' as <-.
  rewrite Hnum in Hnum'. injection Hnum' as <-.
  destruct (Hrows sample Hs) as (HW & HlW & Hlc & _ & Hval).
  rewrite (Hval classifier Hj).
  rewrite (@weighted_flags_all (fun flags => nth classifier flags false)
             _ _ b) by (congruence || assumption).
  destruct b; simpl; [|lra].
  rewrite HW, normalize_row_sum;
    [lra | apply raw_weights_nonneg | apply rescaled_nonzero, Hres].
  reflexivity.
Qed.

Lemma unanimous_competence_witness :
  exists competence,
    estimate_competence demo [[0; 3]]%Z None None = Some competence /\
    nth 2 (nth 0 competence []) 0 = 1.
Proof.
  eexists. split; [reflexivity|].
  apply (@unanimous_competence demo [[0; 3]]%Z None None _ [[3; 1]]%nat
           [[[true; false; true]; [false; false; true]]] 0%nat 2%nat true).
  - apply is_matrix_intro. reflexivity.
  - apply is_matrix_intro. reflexivity.
  - reflexivity.
  - reflexivity.
  - reflexivity.
  - simpl. lia.
  - simpl. lia.
  - repeat constructor.
  - intros _. exact demo_rescaled.
Defined.

(** X6.  A classifier that is right wherever another one is right, among
    the neighbours of a sample, is at least as competent there. *)
Theorem competence_monotone (self : DESMI)
    (competence_region : list (list Z))
    (distances : option (list (list R)))
    (predictions : option (list (list Z)))
    (competence : list (list R)) (correct_num : list (list (list bool)))
    (sample a b : nat) :
  is_matrix competence_region ->
  is_matrix (DSEL_processed_ self) ->
  estimate_competence self competence_region distances predictions
    = Some competence ->
  np_take (DSEL_processed_ self) competence_region = Some correct_num ->
  (sample < length competence_region)%nat ->
  (a < ncols (DSEL_processed_ self))%nat ->
  (b < ncols (DSEL_processed_ self))%nat ->
  Forall (fun flags => nth a flags false = true -> nth b flags false = true)
         (nth sample correct_num []) ->
  nth a (nth sample competence []) 0 <= nth b (nth sample competence []) 0.
Proof.
  intros Hreg Hproc Hest Hcn Hs Ha Hb Hall.
  destruct (@estimate_competence_entries _ _ _ _ _ Hreg Hproc Hest)
    as (num & W & cn & _ & _ & Hcn' & _ & _ & Hrows).
  rewrite Hcn in Hcn'. injection Hcn' as <-.
  destruct (Hrows sample Hs) as (_ & _ & _ & Hnn & Hval).
  rewrite (Hval a Ha), (Hval b Hb).
  apply (@weighted_flags_monotone (fun flags => nth a flags false)
           (fun flags => nth b flags false)); assumption.
Qed.

Lemma competence_monotone_witness :
  exists competence,
    estimate_competence demo [[0; 3]]%Z None None = Some competence /\
    nth 0 (nth 0 competence []) 0 <= nth 2 (nth 0 competence []) 0.
Proof.
  eexists. split; [reflexivity|].
  apply (@competence_monotone demo [[0; 3]]%Z None None _
           [[[true; false; true]; [false; false; true]]] 0%nat 0%nat 2%nat).
  - apply is_matrix_intro. reflexivity.
  - apply is_matrix_intro. reflexivity.
  - reflexivity.
  - reflexivity.
  - simpl. lia.
  - simpl. lia.
  - simpl. lia.
  - repeat constructor.
Defined.

(** X7.  When the neighbours of a sample all come from classes of one
    frequency and their raw weights have an L1 norm of at least
    [guard_margin], the weights are uniform and the competence of a
    classifier is its plain local accuracy: the share of the neighbours it
    gets right. *)
Theorem balanced_competence_is_local_accuracy (self : DESMI)
    (competence_region : list (list Z))
    (distances : option (list (list R)))
    (predictions : option (list (list Z)))
    (competence : list (list R)) (num : list (list nat))
    (correct_num : list (list (list bool)))
    (sample classifier frequency : nat) :
  is_matrix competence_region ->
  is_matrix (DSEL_processed_ self) ->
  estimate_competence self competence_region distances predictions
    = Some competence ->
  neighbor_frequencies self competence_region = Some num ->
  np_take (DSEL_processed_ self) competence_region = Some correct_num ->
  (sample < length competence_region)%nat ->
  (classifier < ncols (DSEL_processed_ self))%nat ->
  Forall (fun n => n = frequency) (nth sample num []) ->
  rescaled self (nth sample num []) ->
  nth classifier (nth sample competence []) 0 =
  INR (correct_count classifier (nth sample correct_num []))
  / INR (ncols competence_region).
Proof.
  intros Hreg Hproc Hest Hnum Hcn Hs Hj Hfreq Hres.
  destruct (@estimate_competence_entries _ _ _ _ _ Hreg Hproc Hest)
    as (num' & W & cn & Hnum' & HW & Hcn' & HlenW & _ & Hrows).
  rewrite Hcn in Hcn'. injection Hcn' as <-.
  rewrite Hnum in Hnum'. injection Hnum' as <-.
  destruct (Hrows sample Hs) as (Hrow & HlW & Hlc & _ & Hval).
  rewrite (Hval classifier Hj).
  assert (Hk : length (nth sample num []) = ncols competence_region).
  { rewrite <- HlW, Hrow, normalize_row_length, length_map. reflexivity. }
  pose proof (rescaled_nonzero Hres) as Hnz.
  assert (Hrs : Rsum (map (raw_weight self) (nth sample num []))
                = INR (ncols competence_region) * raw_weight self frequency).
  { rewrite <- Hk. clear - Hfreq. induction Hfreq as [|n l Hn Hl IH];
      [unfold Rsum; simpl; lra|].
    change (Rsum (map (raw_weight self) (n :: l)))
      with (raw_weight self n + Rsum (map (raw_weight self) l)).
    rewrite IH, Hn. cbn [length]. rewrite S_INR. lra. }
  assert (Hk0 : INR (ncols competence_region) <> 0)
    by (intros Hz; rewrite Hrs, Hz in Hnz; lra).
  assert (Hw0 : raw_weight self frequency <> 0)
    by (intros Hz; rewrite Hrs, Hz in Hnz; lra).
  assert (Hu : Forall (fun x => x = 1 / INR (ncols competence_region))
                      (nth sample W [])).
  { rewrite Hrow, normalize_row_explicit
      by (apply raw_weights_nonneg || exact Hnz).
    rewrite map_map. apply Forall_map. rewrite Hrs.
    eapply Forall_impl; [|exact Hfreq]. intros n ->. cbv beta.
    field. split; assumption. }
  rewrite (@weighted_flags_uniform (fun flags => nth classifier flags false)
             _ _ _ (eq_trans Hlc (eq_sym HlW)) Hu).
  unfold correct_count. lra.
Qed.

Lemma demo_balanced_rescaled : rescaled demo [3; 3]%nat.
Proof.
  apply (@rescaled_intro demo [3; 3]%nat 3%nat).
  - left. reflexivity.
  - simpl. lra.
Qed.

Lemma balanced_competence_is_local_accuracy_witness :
  exists competence,
    estimate_competence demo [[0; 1]]%Z None None = Some competence /\
    nth 1 (nth 0 competence []) 0 = INR 1 / INR 2.
Proof.
  eexists. split; [reflexivity|].
  apply (@balanced_competence_is_local_accuracy demo [[0; 1]]%Z None None _
           [[3; 3]]%nat [[[true; false; true]; [true; true; false]]]
           0%nat 1%nat 3%nat).
  - apply is_matrix_intro. reflexivity.
  - apply is_matrix_intro. reflexivity.
  - reflexivity.
  - reflexivity.
  - reflexivity.
  - simpl. lia.
  - simpl. lia.
  - repeat constructor.
  - exact demo_balanced_rescaled.
Defined.

(** ** Errors of the competence estimate *)

Lemma mapM_fails {A B} (f : A -> option B) l a :
  In a l -> f a = None -> mapM f l = None.
Proof.
  induction l as [|x l IH]; simpl; [tauto|].
  intros [->|Hin] Hf; [rewrite Hf; reflexivity|].
  rewrite (IH Hin Hf). destruct (f x); reflexivity.
Qed.

Lemma np_index_out_of_range {A} (a : list A) i :
  ~ (- Z.of_nat (length a) <= i < Z.of_nat (length a))%Z ->
  np_index a i = None.
Proof.
  intros H. unfold np_index.
  destruct (Z.leb_spec 0 i).
  - apply nth_error_None. lia.
  - destruct (Z.leb_spec (- Z.of_nat (length a)) i); [lia | reflexivity].
Qed.

(** X8.  A neighbour index outside [-n, n), for [n] DSEL samples, makes the
    estimate raise. *)
Theorem neighbor_out_of_range_raises (self : DESMI)
    (competence_region : list (list Z))
    (distances : option (list (list R)))
    (predictions : option (list (list Z)))
    (row : list Z) (i : Z) :
  In row competence_region ->
  In i row ->
  ~ (- Z.of_nat (length (DSEL_target_ self)) <= i
     < Z.of_nat (length (DSEL_target_ self)))%Z ->
  estimate_competence self competence_region distances predictions = None.
Proof.
  intros Hrow Hi Hout.
  assert (Htake : np_take (DSEL_target_ self) competence_region = None).
  { unfold np_take. apply (mapM_fails _ _ row Hrow).
    apply (mapM_fails _ _ i Hi). apply np_index_out_of_range, Hout. }
  unfold estimate_competence, neighbor_weights. rewrite Htake.
  destruct (bincount (DSEL_target_ self)); reflexivity.
Qed.

Lemma neighbor_out_of_range_raises_witness :
  estimate_competence demo [[0; 4]]%Z None None = None.
Proof.
  apply (@neighbor_out_of_range_raises demo [[0; 4]]%Z None None
           [0; 4]%Z 4%Z).
  - left. reflexivity.
  - right. left. reflexivity.
  - simpl. lia.
Defined.

(** X9.  A negative DSEL label makes the estimate raise, whatever the
    region. *)
Theorem negative_label_raises (self : DESMI)
    (competence_region : list (list Z))
    (distances : option (list (list R)))
    (predictions : option (list (list Z)))
    (label : Z) :
  In label (DSEL_target_ self) ->
  (label < 0)%Z ->
  estimate_competence self competence_region distances predictions = None.
Proof.
  intros Hin Hneg.
  assert (Hb : bincount (DSEL_target_ self) = None).
  { unfold bincount.
    destruct (forallb (fun v => (0 <=? v)%Z) (DSEL_target_ self)) eqn:E;
      [|reflexivity].
    rewrite forallb_forall in E. specialize (E label Hin).
    apply Z.leb_le in E. lia. }
  unfold estimate_competence, neighbor_weights. rewrite Hb. reflexivity.
Qed.

Lemma negative_label_raises_witness :
  estimate_competence mislabelled [[0; 3]]%Z None None = None.
Proof.
  apply (@negative_label_raises mislabelled [[0; 3]]%Z None None (-1)%Z).
  - right. left. reflexivity.
  - lia.
Defined.

(** X10.  The array [correct] of lines 170-173 is never read, yet it makes the
    estimate raise: when the region is neither [k_] nor one neighbour wide, or
    when [n_classifiers_] exceeds the width of the correctness table. *)
Theorem unused_buffer_shape_raises (self : DESMI)
    (competence_region : list (list Z))
    (distances : option (list (list R)))
    (predictions : option (list (list Z))) :
  n_classifiers_ self <> 0%nat ->
  (ncols competence_region <> k_ self /\ ncols competence_region <> 1%nat) \/
  (ncols (DSEL_processed_ self) < n_classifiers_ self)%nat ->
  estimate_competence self competence_region distances predictions = None.
Proof.
  intros Hn Hshape.
  assert (Hg : correct_loop_ok self competence_region = false).
  { unfold correct_loop_ok.
    destruct (Nat.eqb_spec (n_classifiers_ self) 0); [contradiction|].
    destruct (Nat.leb_spec (n_classifiers_ self)
                           (ncols (DSEL_processed_ self)));
      [|reflexivity].
    destruct Hshape as [[Hk H1]|Hc]; [|lia].
    destruct (Nat.eqb_spec (ncols competence_region) (k_ self));
      [contradiction|].
    destruct (Nat.eqb_spec (ncols competence_region) 1); [contradiction|].
    reflexivity. }
  unfold estimate_competence. rewrite Hg.
  destruct (neighbor_weights self competence_region); [|reflexivity].
  simpl.
  destruct (np_take (DSEL_processed_ self) competence_region); reflexivity.
Qed.

Lemma unused_buffer_shape_raises_witness :
  estimate_competence demo [[0; 1; 3]]%Z None None = None.
Proof.
  apply (@unused_buffer_shape_raises demo [[0; 1; 3]]%Z None None).
  - discriminate.
  - left. split; discriminate.
Defined.

(** X11.  Apart from raising, [k_] and [n_classifiers_] have no part in the
    estimate: two estimators with the same DSEL tables and [alpha] that both
    return, return the same competences. *)
Theorem competence_reads_tables_and_alpha (self self' : DESMI)
    (competence_region : list (list Z))
    (distances distances' : option (list (list R)))
    (predictions predictions' : option (list (list Z)))
    (competence competence' : list (list R)) :
  DSEL_target_ self = DSEL_target_ self' ->
  DSEL_processed_ self = DSEL_processed_ self' ->
  alpha self = alpha self' ->
  estimate_competence self competence_region distances predictions
    = Some competence ->
  estimate_competence self' competence_region distances' predictions'
    = Some competence' ->
  competence = competence'.
Proof.
  intros Ht Hp Ha H H'.
  unfold estimate_competence, neighbor_weights in H, H'.
  assert (Hw : raw_weight self = raw_weight self')
    by (unfold raw_weight; rewrite Ha; reflexivity).
  rewrite <- Ht, <- Hp, <- Hw in H'.
  repeat inv_bind H. repeat inv_bind H'.
  congruence.
Qed.

Lemma competence_reads_tables_and_alpha_witness :
  exists competence competence',
    estimate_competence demo [[0; 3]]%Z None None = Some competence /\
    estimate_competence narrowed [[0; 3]]%Z (Some [[1; 2]])
      (Some [[0; 1; 0]]%Z) = Some competence' /\
    competence = competence'.
Proof.
  eexists. eexists. split; [reflexivity|]. split; [reflexivity|].
  apply (@competence_reads_tables_and_alpha demo narrowed [[0; 3]]%Z
           None (Some [[1; 2]]) None (Some [[0; 1; 0]]%Z));
    reflexivity.
Defined.

(** ** Neighbour indices counted from the end *)

Lemma np_index_wrap {A} (a : list A) i :
  valid_index a i -> np_index a (i - Z.of_nat (length a)) = np_index a i.
Proof.
  unfold valid_index, np_index. intros H. cbv zeta.
  destruct (Z.leb_spec 0 (i - Z.of_nat (length a))); [lia|].
  destruct (Z.leb_spec (- Z.of_nat (length a)) (i - Z.of_nat (length a)));
    [|lia].
  destruct (Z.leb_spec 0 i); [|lia].
  f_equal. lia.
Qed.

Lemma np_take_wrap {A} (a : list A) region region' :
  Forall2 (Forall2 (same_position (length a))) region region' ->
  np_take a region' = np_take a region.
Proof.
  unfold np_take. induction 1 as [|row row' region region' Hrow _ IH];
    simpl; [reflexivity|].
  rewrite IH. f_equal.
  induction Hrow as [|i i' row row' [Hi [->| ->]] _ IHrow]; simpl;
    [reflexivity | rewrite IHrow; reflexivity |].
  rewrite IHrow, (np_index_wrap Hi). reflexivity.
Qed.

Lemma ncols_related {A B} (P : A -> B -> Prop) m m' :
  Forall2 (Forall2 P) m m' -> ncols m' = ncols m.
Proof.
  destruct 1 as [|r r' m m' Hr _]; simpl; [reflexivity|].
  symmetry. apply (Forall2_length_eq Hr).
Qed.

(** X12.  A neighbour index below zero names a DSEL sample from the end:
    writing [i - n] for any index [i] of the region, with [n] the number of
    DSEL samples, changes nothing in the estimate. *)
Theorem negative_neighbors_wrap (self : DESMI)
    (competence_region competence_region' : list (list Z))
    (distances : option (list (list R)))
    (predictions : option (list (list Z))) :
  length (DSEL_processed_ self) = length (DSEL_target_ self) ->
  Forall2 (Forall2 (same_position (length (DSEL_target_ self))))
          competence_region competence_region' ->
  estimate_competence self competence_region' distances predictions
  = estimate_competence self competence_region distances predictions.
Proof.
  intros Hlen H.
  unfold estimate_competence, neighbor_weights, correct_loop_ok.
  rewrite (np_take_wrap (DSEL_target_ self) H), (ncols_related H).
  rewrite <- Hlen in H.
  rewrite (np_take_wrap (DSEL_processed_ self) H). reflexivity.
Qed.

Lemma negative_neighbors_wrap_witness :
  estimate_competence demo [[-4; 3]]%Z None None
  = estimate_competence demo [[0; 3]]%Z None None.
Proof.
  apply (@negative_neighbors_wrap demo [[0; 3]]%Z [[-4; 3]]%Z None None).
  - reflexivity.
  - repeat constructor; unfold same_position; simpl; lia.
Defined.

(** ** Selection on rows shorter than [N] *)

Section ShortRows.

Variable argsort : list R -> list nat.
Hypothesis argsort_ok : argsort_spec argsort.

(** X13.  [select] never raises for want of columns: a row with fewer than [N]
    columns yields all of them, each once. *)
Theorem select_takes_what_there_is (self : DESMI) (competences : ndarray)
    (N : Z) (selected : list (list nat)) :
  N_ self = Some N ->
  (0 <= N)%Z ->
  select argsort self competences = Some selected ->
  Forall2 (fun row chosen =>
             length chosen = Nat.min (Z.to_nat N) (length row) /\
             ((length row <= Z.to_nat N)%nat ->
              Permutation chosen (seq 0 (length row))))
          (as_matrix competences) selected.
Proof.
  intros HN Hpos H. rewrite (select_eq _ _ _ HN) in H. injection H as <-.
  induction (as_matrix competences) as [|row rows IH]; simpl; constructor;
    [|exact IH].
  rewrite slice_to_nonneg by assumption. split.
  - rewrite length_firstn, length_rev, (argsort_length argsort_ok). reflexivity.
  - intros Hshort.
    rewrite firstn_all2
      by (rewrite length_rev, (argsort_length argsort_ok); exact Hshort).
    rewrite <- Permutation_rev. apply argsort_ok.
Qed.

End ShortRows.

Lemma select_takes_what_there_is_witness :
  Forall2 (fun row chosen =>
             length chosen = Nat.min (Z.to_nat 2) (length row) /\
             ((length row <= Z.to_nat 2)%nat ->
              Permutation chosen (seq 0 (length row))))
          (as_matrix (Arr2 [[3 / 10]])) [[0%nat]].
Proof.
  apply (@select_takes_what_there_is np_argsort np_argsort_spec demo
           (Arr2 [[3 / 10]]) 2%Z [[0%nat]]).
  - reflexivity.
  - lia.
  - reflexivity.
Defined.

(** ** Missing inputs *)

Section MissingInputs.

Variable argsort : list R -> list nat.

(** X14.  With pruning on and no mask, with hard voting and no predictions, or
    with another voting mode and no probabilities, the call raises. *)
Theorem missing_input_raises (self : DESMI)
    (predictions : option (list (list Z)))
    (probabilities : option (list (list (list R))))
    (competence_region : list (list Z))
    (distances : option (list (list R)))
    (DFP_mask : option (list (list R))) :
  (DFP self = true /\ DFP_mask = None) \/
  (voting self = "hard"%string /\ predictions = None) \/
  (voting self <> "hard"%string /\ probabilities = None) ->
  predict_proba_with_ds argsort self predictions probabilities
    competence_region distances DFP_mask = None /\
  classify_with_ds argsort self predictions probabilities
    competence_region distances DFP_mask = None.
Proof.
  intros H.
  assert (Hp : predict_proba_with_ds argsort self predictions probabilities
                 competence_region distances DFP_mask = None).
  { unfold predict_proba_with_ds, selected_classifiers, masked_competence.
    destruct (estimate_competence self competence_region distances None)
      as [accuracy|]; [|reflexivity]. simpl.
    destruct H as [[Hd ->]|[[Hv ->]|[Hv ->]]].
    - rewrite Hd. reflexivity.
    - destruct (if DFP self then _ else _) as [acc|]; [|reflexivity]. simpl.
      destruct (select argsort self (Arr2 acc)); [|reflexivity]. simpl.
      rewrite Hv. reflexivity.
    - destruct (if DFP self then _ else _) as [acc|]; [|reflexivity]. simpl.
      destruct (select argsort self (Arr2 acc)); [|reflexivity]. simpl.
      destruct (String.eqb_spec (voting self) "hard"); [contradiction|].
      reflexivity. }
  split; [exact Hp|]. unfold classify_with_ds. rewrite Hp. reflexivity.
Qed.

End MissingInputs.

Lemma missing_input_raises_witness :
  predict_proba_with_ds np_argsort keen (Some [[1; 0]]%Z) None
    [[0; 1]]%Z None None = None /\
  classify_with_ds np_argsort keen (Some [[1; 0]]%Z) None
    [[0; 1]]%Z None None = None.
Proof.
  apply (@missing_input_raises np_argsort keen (Some [[1; 0]]%Z) None
           [[0; 1]]%Z None None).
  left. split; reflexivity.
Defined.

(** ** A mask of ones *)

Lemma zip_mult_ones c m :
  length c = length m -> Forall (fun x => x = 1) m ->
  zip_with Rmult c m = c.
Proof.
  intros Hlen Hm. revert c Hlen.
  induction Hm as [|x m Hx Hm IH]; intros [|y c] Hlen; try discriminate;
    simpl; [reflexivity|].
  rewrite IH by (simpl in Hlen; congruence). subst x. f_equal. lra.
Qed.

(** X15.  With pruning on, a mask of ones of the shape of the competences
    leaves them as they are. *)
Theorem mask_of_ones_keeps_competence (self : DESMI)
    (competence_region : list (list Z))
    (distances : option (list (list R)))
    (competence DFP_mask : list (list R)) :
  DFP self = true ->
  estimate_competence self competence_region distances None
    = Some competence ->
  Forall2 (fun c m => length c = length m /\ Forall (fun x => x = 1) m)
          competence DFP_mask ->
  masked_competence self competence_region distances (Some DFP_mask)
  = Some competence.
Proof.
  intros Hd Hest Hmask. unfold masked_competence. rewrite Hest, Hd. simpl.
  rewrite np_mul2_same_shape
    by (eapply Forall2_impl; [|exact Hmask]; simpl; tauto).
  f_equal. clear Hest.
  induction Hmask as [|c m cs ms [Hl Hm] Hrest IH]; simpl;
    [reflexivity|].
  rewrite IH, (zip_mult_ones c Hl Hm). reflexivity.
Qed.

Lemma mask_of_ones_keeps_competence_witness :
  exists competence,
    estimate_competence keen [[0; 1]]%Z None None = Some competence /\
    masked_competence keen [[0; 1]]%Z None (Some [[1; 1]])
    = Some competence.
Proof.
  destruct keen_competence as (w0 & w1 & _ & _ & E).
  eexists. split; [exact E|].
  apply (@mask_of_ones_keeps_competence keen [[0; 1]]%Z None _ [[1; 1]]).
  - reflexivity.
  - exact E.
  - repeat constructor.
Defined.

(** ** Hard vote with labels out of range *)

Lemma histogram_total_in_range (row : list Z) n_classes :
  total (histogram n_classes row) = votes_in_range n_classes row.
Proof.
  unfold histogram, votes_in_range.
  induction row as [|x row IH]; simpl.
  - unfold total. induction (seq 0 n_classes); simpl; auto.
  - rewrite (map_ext _
      (fun label => ((if Z.eq_dec x (Z.of_nat label) then 1 else 0)
                     + count_occ Z.eq_dec row (Z.of_nat label))%nat))
      by (intros label; destruct (Z.eq_dec x (Z.of_nat label)); reflexivity).
    rewrite total_pointwise_add, indicator_total, IH.
    unfold valid_labelb. simpl Z.of_nat.
    destruct ((0 <=? x)%Z && (x <? Z.of_nat n_classes)%Z); reflexivity.
Qed.

Lemma map_const_repeat {A B} (b : B) (l : list A) :
  map (fun _ => b) l = repeat b (length l).
Proof. induction l; simpl; congruence. Qed.

Lemma vote_proba_no_vote (hist : list nat) :
  total hist = 0%nat -> vote_proba hist = repeat NaN (length hist).
Proof.
  intros H. unfold vote_proba. fold (total hist). rewrite H.
  rewrite (map_ext _ (fun _ => NaN)) by reflexivity.
  apply map_const_repeat.
Qed.

Lemma vote_proba_nth (hist : list nat) c :
  total hist <> 0%nat -> (c < length hist)%nat ->
  nth c (vote_proba hist) NaN = Fin (INR (nth c hist 0%nat) / INR (total hist)).
Proof.
  intros Ht Hc. unfold vote_proba. fold (total hist).
  rewrite (nth_indep _ NaN (np_true_divide 0 (total hist)))
    by (rewrite length_map; exact Hc).
  rewrite (map_nth (fun v => np_true_divide v (total hist))).
  unfold np_true_divide.
  destruct (Nat.eqb_spec (total hist) 0); [contradiction | reflexivity].
Qed.

(** X16.  Hard voting counts only the votes in [0, n_classes). A sample's row
    has [n_classes] entries; with at least one vote in range each class gets
    its share of the votes in range and the row sums to 1, with none the whole
    row is [nan]. *)
Theorem hard_vote_counts_votes_in_range (self : DESMI)
    (P : list (list Z)) (selected : list (list nat))
    (votes : list (list Z)) (proba : list (list npfloat)) :
  take_selected P selected = Some votes ->
  hard_vote self (Some P) selected = Some proba ->
  Forall2 (fun v row =>
             length row = n_classes_ self /\
             (votes_in_range (n_classes_ self) v = 0%nat ->
              row = repeat NaN (n_classes_ self)) /\
             (votes_in_range (n_classes_ self) v <> 0%nat ->
              npsum row = Fin 1 /\
              forall c, (c < n_classes_ self)%nat ->
                nth c row NaN =
                Fin (INR (count_occ Z.eq_dec v (Z.of_nat c))
                     / INR (votes_in_range (n_classes_ self) v))))
          votes proba.
Proof.
  intros Hv H. unfold hard_vote in H. simpl in H. rewrite Hv in H.
  simpl in H. injection H as <-.
  change (sum_votes_per_class votes (n_classes_ self))
    with (map (histogram (n_classes_ self)) votes).
  rewrite map_map. apply Forall2_map_right, Forall_forall. intros v _.
  pose proof (histogram_total_in_range v (n_classes_ self)) as Ht.
  assert (Hl : length (histogram (n_classes_ self) v) = n_classes_ self)
    by (unfold histogram; rewrite length_map, length_seq; reflexivity).
  repeat split.
  - unfold vote_proba. rewrite length_map. exact Hl.
  - intros Hz. rewrite vote_proba_no_vote, Hl by congruence. reflexivity.
  - apply vote_proba_sum. congruence.
  - intros c Hc. rewrite vote_proba_nth by congruence.
    rewrite Ht. f_equal. f_equal. f_equal. unfold histogram.
    rewrite (nth_indep _ 0%nat
               (count_occ Z.eq_dec v (Z.of_nat 0)))
      by (rewrite length_map, length_seq; exact Hc).
    rewrite (map_nth (fun label => count_occ Z.eq_dec v (Z.of_nat label))).
    rewrite seq_nth by exact Hc. reflexivity.
Qed.

Lemma hard_vote_counts_votes_in_range_witness :
  Forall2 (fun v row =>
             length row = n_classes_ demo /\
             (votes_in_range (n_classes_ demo) v = 0%nat ->
              row = repeat NaN (n_classes_ demo)) /\
             (votes_in_range (n_classes_ demo) v <> 0%nat ->
              npsum row = Fin 1 /\
              forall c, (c < n_classes_ demo)%nat ->
                nth c row NaN =
                Fin (INR (count_occ Z.eq_dec v (Z.of_nat c))
                     / INR (votes_in_range (n_classes_ demo) v))))
          [[7; 1]; [7; 9]]%Z
          [vote_proba [0; 1]%nat; vote_proba [0; 0]%nat].
Proof.
  apply (@hard_vote_counts_votes_in_range demo
           [[7; 0; 1]; [7; 0; 9]]%Z [[0; 2]; [0; 2]]%nat);
    reflexivity.
Defined.

(** ** The label is the plurality class, or the class of the largest sum *)

Lemma argmax_from_order {A} (ga ha : A -> R) :
  (forall x y, ga x <= ga y <-> ha x <= ha y) ->
  forall l m k i,
    argmax_from (Fin (ga m)) k i (map (fun a => Fin (ga a)) l) =
    argmax_from (Fin (ha m)) k i (map (fun a => Fin (ha a)) l).
Proof.
  intros Hord. induction l as [|x l IH]; intros m k i; simpl; [reflexivity|].
  destruct (Rle_dec (ga x) (ga m)) as [Hg|Hg],
           (Rle_dec (ha x) (ha m)) as [Hh|Hh].
  - apply IH.
  - apply Hord in Hg. contradiction.
  - apply Hord in Hh. contradiction.
  - apply IH.
Qed.

Lemma np_argmax_order {A} (ga ha : A -> R) l :
  (forall x y, ga x <= ga y <-> ha x <= ha y) ->
  np_argmax (map (fun a => Fin (ga a)) l) =
  np_argmax (map (fun a => Fin (ha a)) l).
Proof.
  intros Hord. destruct l as [|x l]; simpl; [reflexivity|].
  f_equal. apply argmax_from_order, Hord.
Qed.

Lemma div_order d x y : 0 < d -> x / d <= y / d <-> x <= y.
Proof.
  intros Hd. unfold Rdiv. split; intros H.
  - apply Rmult_le_reg_r with (/ d); [apply Rinv_0_lt_compat, Hd | exact H].
  - apply Rmult_le_compat_r; [apply Rlt_le, Rinv_0_lt_compat, Hd | exact H].
Qed.

Lemma first_maximum_counts (counts : list nat) label :
  first_maximum (map (fun v => Fin (INR v)) counts) label <->
  plurality counts label.
Proof.
  assert (Hn : forall j, (j < length counts)%nat ->
             nth j (map (fun v => Fin (INR v)) counts) NaN
             = Fin (INR (nth j counts 0%nat))).
  { intros j Hj.
    rewrite (nth_indep _ NaN (Fin (INR 0))) by (rewrite length_map; exact Hj).
    apply (map_nth (fun v => Fin (INR v))). }
  unfold first_maximum, plurality. rewrite length_map.
  split; intros (Hl & Hmax & Hfirst); repeat split; try exact Hl.
  - intros j Hj. specialize (Hmax j Hj). rewrite !Hn in Hmax by assumption.
    simpl in Hmax. apply INR_le, Hmax.
  - intros j Hj. specialize (Hfirst j Hj).
    rewrite !Hn in Hfirst by lia. simpl in Hfirst.
    apply INR_lt. lra.
  - intros j Hj. rewrite !Hn by assumption. simpl.
    apply le_INR, Hmax, Hj.
  - intros j Hj. rewrite !Hn by lia. simpl.
    apply Rlt_not_le, lt_INR, Hfirst, Hj.
Qed.

Lemma np_argmax_vote_proba (hist : list nat) label :
  total hist <> 0%nat ->
  np_argmax (vote_proba hist) = Some label <-> plurality hist label.
Proof.
  intros Ht. rewrite <- first_maximum_counts, <- np_argmax_spec.
  assert (Heq : vote_proba hist
                = map (fun v => Fin (INR v / INR (total hist))) hist).
  { unfold vote_proba. fold (total hist). apply map_ext. intros v.
    unfold np_true_divide.
    destruct (Nat.eqb_spec (total hist) 0); [contradiction | reflexivity]. }
  rewrite Heq.
  rewrite (np_argmax_order (fun v => INR v / INR (total hist)) INR);
    [reflexivity|].
  intros x y. apply div_order. apply lt_0_INR. lia.
Qed.

Lemma np_argmax_repeat_nan n label :
  np_argmax (repeat NaN n) = Some label -> label = 0%nat.
Proof.
  destruct n; simpl; [discriminate|].
  destruct (repeat NaN n); simpl; congruence.
Qed.

Lemma Forall2_map_left {A B C} (P : B -> C -> Prop) (f : A -> B) l r :
  Forall2 P (map f l) r <-> Forall2 (fun a c => P (f a) c) l r.
Proof.
  revert r; induction l as [|a l IH]; intros r; simpl; split; intros H;
    inversion H; subst; constructor; auto; now apply IH.
Qed.

Section LabelFacts.

Variable argsort : list R -> list nat.

(** X17.  In hard-voting mode the predicted label of a sample is a class below
    [n_classes_]: the first class with the most votes among the selected
    classifiers' votes in range, and class 0 when no vote is in range. *)
Theorem hard_label_is_plurality (self : DESMI)
    (predictions : option (list (list Z)))
    (probabilities : option (list (list (list R))))
    (neighbors : list (list Z))
    (distances : option (list (list R)))
    (DFP_mask : option (list (list R)))
    (predicted_label : list nat) :
  voting self = "hard"%string ->
  classify_with_ds argsort self predictions probabilities neighbors
    distances DFP_mask = Some predicted_label ->
  exists P selected votes,
    predictions = Some P /\
    selected_classifiers argsort self neighbors distances DFP_mask
      = Some selected /\
    take_selected P selected = Some votes /\
    Forall2 (fun v label =>
               (label < n_classes_ self)%nat /\
               (votes_in_range (n_classes_ self) v = 0%nat ->
                label = 0%nat) /\
               (votes_in_range (n_classes_ self) v <> 0%nat ->
                plurality (histogram (n_classes_ self) v) label))
            votes predicted_label.
Proof.
  intros Hv H. unfold classify_with_ds, predict_proba_with_ds in H.
  destruct (selected_classifiers argsort self neighbors distances DFP_mask)
    as [selected|] eqn:Es; [|discriminate]. simpl in H.
  rewrite Hv in H. simpl in H. unfold hard_vote in H.
  destruct predictions as [P|]; [|discriminate]. simpl in H.
  destruct (take_selected P selected) as [votes|] eqn:Et; [|discriminate].
  simpl in H. exists P, selected, votes.
  split; [reflexivity|]. split; [reflexivity|]. split; [exact Et|].
  change (sum_votes_per_class votes (n_classes_ self))
    with (map (histogram (n_classes_ self)) votes) in H.
  rewrite map_map in H. apply mapM_Forall2 in H.
  apply Forall2_map_left in H.
  eapply Forall2_impl; [|exact H]. clear H. intros v label Hl. simpl in Hl.
  pose proof (histogram_total_in_range v (n_classes_ self)) as Ht.
  assert (Hlen : length (histogram (n_classes_ self) v) = n_classes_ self)
    by (unfold histogram; rewrite length_map, length_seq; reflexivity).
  assert (Hrange : (label < n_classes_ self)%nat).
  { apply np_argmax_spec in Hl. destruct Hl as (Hl & _).
    unfold vote_proba in Hl. rewrite length_map, Hlen in Hl. exact Hl. }
  split; [exact Hrange|]. split.
  - intros Hz. rewrite vote_proba_no_vote in Hl by congruence.
    eapply np_argmax_repeat_nan; eauto.
  - intros Hnz. apply np_argmax_vote_proba; [congruence | exact Hl].
Qed.

(** X18.  In the other mode the predicted label of a sample with at least one
    selected classifier is the first class with the largest sum of the
    selected classifiers' probabilities. *)
Theorem soft_label_is_argmax_of_sums (self : DESMI)
    (predictions : option (list (list Z)))
    (probabilities : option (list (list (list R))))
    (neighbors : list (list Z))
    (distances : option (list (list R)))
    (DFP_mask : option (list (list R)))
    (predicted_label : list nat) :
  voting self <> "hard"%string ->
  classify_with_ds argsort self predictions probabilities neighbors
    distances DFP_mask = Some predicted_label ->
  exists P selected ensemble_proba,
    probabilities = Some P /\
    selected_classifiers argsort self neighbors distances DFP_mask
      = Some selected /\
    take_selected P selected = Some ensemble_proba /\
    Forall2 (fun rows label =>
               rows <> [] ->
               first_maximum (map Fin (sum_rows (ncols3 P) rows)) label)
            ensemble_proba predicted_label.
Proof.
  intros Hv H. unfold classify_with_ds, predict_proba_with_ds in H.
  destruct (selected_classifiers argsort self neighbors distances DFP_mask)
    as [selected|] eqn:Es; [|discriminate]. simpl in H.
  destruct (String.eqb_spec (voting self) "hard"); [contradiction|].
  unfold soft_vote in H.
  destruct probabilities as [P|]; [|discriminate]. simpl in H.
  destruct (take_selected P selected) as [ens|] eqn:Et; [|discriminate].
  simpl in H. exists P, selected, ens.
  split; [reflexivity|]. split; [reflexivity|]. split; [exact Et|].
  apply mapM_Forall2, Forall2_map_left in H.
  eapply Forall2_impl; [|exact H]. clear H. intros rows label Hl Hne.
  simpl in Hl. unfold np_mean in Hl.
  destruct rows as [|r rows]; [congruence|].
  change (length (r :: rows) =? 0)%nat with false in Hl. cbv iota in Hl.
  apply np_argmax_spec.
  rewrite <- (np_argmax_order (fun s => s / INR (length (r :: rows)))
                (fun s => s)); [exact Hl|].
  intros x y. apply div_order. apply lt_0_INR. simpl. lia.
Qed.

End LabelFacts.

Lemma duo_soft_label :
  classify_with_ds np_argsort (duo "soft") None
    (Some [[[1 / 4; 3 / 4]; [1 / 2; 1 / 2]]]) [[0; 1]]%Z None None
  = Some [1%nat].
Proof.
  unfold classify_with_ds, predict_proba_with_ds.
  rewrite duo_selection. simpl.
  unfold np_mean, np_le. simpl. decide_reals. reflexivity.
Qed.

Lemma soft_label_is_argmax_of_sums_witness :
  exists P selected ensemble_proba,
    Some [[[1 / 4; 3 / 4]; [1 / 2; 1 / 2]]] = Some P /\
    selected_classifiers np_argsort (duo "soft") [[0; 1]]%Z None None
      = Some selected /\
    take_selected P selected = Some ensemble_proba /\
    Forall2 (fun rows label =>
               rows <> [] ->
               first_maximum (map Fin (sum_rows (ncols3 P) rows)) label)
            ensemble_proba [1%nat].
Proof.
  apply (@soft_label_is_argmax_of_sums np_argsort (duo "soft") None
           (Some [[[1 / 4; 3 / 4]; [1 / 2; 1 / 2]]]) [[0; 1]]%Z None None
           [1%nat]).
  - discriminate.
  - exact duo_soft_label.
Defined.

Lemma duo_hard_label :
  classify_with_ds np_argsort (duo "hard") (Some [[1; 1]]%Z) None
    [[0; 1]]%Z None None = Some [1%nat].
Proof.
  unfold classify_with_ds, predict_proba_with_ds.
  rewrite duo_selection. simpl.
  unfold np_true_divide, np_le. simpl. decide_reals. reflexivity.
Qed.

Lemma hard_label_is_plurality_witness :
  exists P selected votes,
    Some [[1; 1]]%Z = Some P /\
    selected_classifiers np_argsort (duo "hard") [[0; 1]]%Z None None
      = Some selected /\
    take_selected P selected = Some votes /\
    Forall2 (fun v label =>
               (label < n_classes_ (duo "hard"))%nat /\
               (votes_in_range (n_classes_ (duo "hard")) v = 0%nat ->
                label = 0%nat) /\
               (votes_in_range (n_classes_ (duo "hard")) v <> 0%nat ->
                plurality (histogram (n_classes_ (duo "hard")) v) label))
            votes [1%nat].
Proof.
  apply (@hard_label_is_plurality np_argsort (duo "hard")
           (Some [[1; 1]]%Z) None [[0; 1]]%Z None None [1%nat]).
  - reflexivity.
  - exact duo_hard_label.
Defined.

(** ** The order of the selected classifiers *)

Lemma mapM_permutation {A B} (f : A -> option B) l l' :
  Permutation l l' ->
  forall r, mapM f l = Some r ->
            exists r', mapM f l' = Some r' /\ Permutation r r'.
Proof.
  induction 1 as [|x l l' Hp IH|x y l|l l' l'' H1 IH1 H2 IH2]; intros r Hr.
  - exists r. split; [exact Hr | reflexivity].
  - simpl in Hr. inv_bind Hr. inv_bind Hr. injection Hr as <-.
    destruct (IH _ E0) as (r' & Hr' & Hperm).
    exists (x0 :: r'). simpl. rewrite E, Hr'. simpl. split; auto.
  - simpl in Hr. inv_bind Hr. inv_bind Hr. injection Hr as <-.
    rename x0 into by_, E into Ey. inv_bind E0. inv_bind E0.
    injection E0 as <-.
    exists (x0 :: by_ :: x2). simpl. rewrite E, Ey, E1. simpl.
    split; [reflexivity | apply perm_swap].
  - destruct (IH1 _ Hr) as (r' & Hr' & Hp1).
    destruct (IH2 _ Hr') as (r'' & Hr'' & Hp2).
    exists r''. split; [exact Hr'' | eapply perm_trans; eauto].
Qed.

Section BroadcastRelated.

Variables (A B C : Type) (f : A -> B -> option C).
Variables (RB : B -> B -> Prop) (RC : C -> C -> Prop).
Hypothesis f_related : forall x y y' c,
  RB y y' -> f x y = Some c -> exists c', f x y' = Some c' /\ RC c c'.

Lemma mapM_related_right x ys ys' :
  Forall2 RB ys ys' ->
  forall r, mapM (fun y => f x y) ys = Some r ->
            exists r', mapM (fun y => f x y) ys' = Some r' /\ Forall2 RC r r'.
Proof.
  induction 1 as [|y y' ys ys' Hy Hys IH]; intros r Hr; simpl in *.
  - injection Hr as <-. exists []. split; [reflexivity | constructor].
  - inv_bind Hr. inv_bind Hr. injection Hr as <-.
    destruct (f_related Hy E) as (c' & Hc' & Hrc).
    destruct (IH _ E0) as (r' & Hr' & HF).
    exists (c' :: r'). rewrite Hc', Hr'. simpl. split; auto.
Qed.

Lemma mapM_related_left y y' xs :
  RB y y' ->
  forall r, mapM (fun x => f x y) xs = Some r ->
            exists r', mapM (fun x => f x y') xs = Some r' /\ Forall2 RC r r'.
Proof.
  intros Hy. induction xs as [|x xs IH]; intros r Hr; simpl in *.
  - injection Hr as <-. exists []. split; [reflexivity | constructor].
  - inv_bind Hr. inv_bind Hr. injection Hr as <-.
    destruct (f_related Hy E) as (c' & Hc' & Hrc).
    destruct (IH _ E0) as (r' & Hr' & HF).
    exists (c' :: r'). rewrite Hc', Hr'. simpl. split; auto.
Qed.

Lemma mapM_related_zip xs ys ys' :
  Forall2 RB ys ys' ->
  forall r, mapM (fun p => f (fst p) (snd p)) (combine xs ys) = Some r ->
            exists r', mapM (fun p => f (fst p) (snd p)) (combine xs ys')
                       = Some r' /\ Forall2 RC r r'.
Proof.
  intros H. revert xs.
  induction H as [|y y' ys ys' Hy Hys IH]; intros xs r Hr.
  - destruct xs; simpl in *; injection Hr as <-;
      exists []; split; try reflexivity; constructor.
  - destruct xs as [|x xs]; simpl in *.
    + injection Hr as <-. exists []. split; [reflexivity | constructor].
    + inv_bind Hr. inv_bind Hr. injection Hr as <-.
      destruct (f_related Hy E) as (c' & Hc' & Hrc).
      destruct (IH _ _ E0) as (r' & Hr' & HF).
      exists (c' :: r'). rewrite Hc', Hr'. simpl. split; auto.
Qed.

Lemma broadcast_related xs ys ys' r :
  Forall2 RB ys ys' ->
  broadcast f xs ys = Some r ->
  exists r', broadcast f xs ys' = Some r' /\ Forall2 RC r r'.
Proof.
  intros H Hr. pose proof (Forall2_length_eq H) as Hlen.
  unfold broadcast in *.
  destruct xs as [|x [|x2 xs]].
  - destruct H as [|y y' ys ys' Hy Hys].
    + simpl in *. injection Hr as <-.
      exists []. split; [reflexivity | constructor].
    + destruct Hys as [|y2 y2' ys ys' Hy2 Hys].
      * simpl in *. injection Hr as <-.
        exists []. split; [reflexivity | constructor].
      * simpl in *. discriminate.
  - eapply mapM_related_right; eauto.
  - destruct H as [|y y' ys ys' Hy Hys].
    + simpl in *. discriminate.
    + destruct Hys as [|y2 y2' ys ys' Hy2 Hys].
      * eapply mapM_related_left; eauto.
      * inv_bind Hr. apply guard_Some in E.
        assert (Hg : (length (x :: x2 :: xs) =? length (y' :: y2' :: ys'))%nat
                     = true).
        { apply Nat.eqb_eq. apply Nat.eqb_eq in E. simpl in *. lia. }
        rewrite Hg. cbn [guard bind].
        eapply mapM_related_zip; [|exact Hr].
        repeat constructor; assumption.
Qed.

End BroadcastRelated.

Lemma take_selected_permutation {A} (a : list (list A)) selected selected' r :
  Forall2 (@Permutation nat) selected selected' ->
  take_selected a selected = Some r ->
  exists r', take_selected a selected' = Some r' /\
             Forall2 (@Permutation A) r r'.
Proof.
  intros H Hr. unfold take_selected in *.
  eapply broadcast_related; [|exact H | exact Hr].
  intros row sel sel' c Hp Hc. simpl in *.
  eapply mapM_permutation; eauto.
Qed.

Lemma Forall2_permutation_sym {A} (l l' : list (list A)) :
  Forall2 (@Permutation A) l l' -> Forall2 (@Permutation A) l' l.
Proof. induction 1; constructor; auto. now apply Permutation_sym. Qed.

Lemma histogram_permutation n v v' :
  Permutation v v' -> histogram n v = histogram n v'.
Proof.
  intros H. unfold histogram. apply map_ext. intros label.
  apply Permutation_count_occ, H.
Qed.

Lemma zip_plus_swap a b x :
  zip_with Rplus a (zip_with Rplus b x) = zip_with Rplus b (zip_with Rplus a x).
Proof.
  revert b x; induction a as [|u a IH]; intros [|v b] [|w x]; simpl;
    try reflexivity.
  rewrite IH. f_equal. lra.
Qed.

Lemma sum_rows_permutation c rows rows' :
  Permutation rows rows' -> sum_rows c rows = sum_rows c rows'.
Proof.
  unfold sum_rows. induction 1; simpl.
  - reflexivity.
  - congruence.
  - apply zip_plus_swap.
  - congruence.
Qed.

Lemma np_mean_permutation c rows rows' :
  Permutation rows rows' -> np_mean c rows = np_mean c rows'.
Proof.
  intros H. unfold np_mean.
  rewrite (sum_rows_permutation c H), (Permutation_length H). reflexivity.
Qed.

Lemma map_related {A B} (P : A -> A -> Prop) (g : A -> B) l l' :
  (forall a a', P a a' -> g a = g a') -> Forall2 P l l' -> map g l = map g l'.
Proof. intros Hg. induction 1; simpl; f_equal; auto. Qed.

(** X19.  Both voting modes ignore the order in which a sample's classifiers
    are listed: two selections that agree row by row up to order give the same
    result, an error included. *)
Theorem vote_ignores_selection_order (self : DESMI)
    (predictions : option (list (list Z)))
    (probabilities : option (list (list (list R))))
    (selected selected' : list (list nat)) :
  Forall2 (@Permutation nat) selected selected' ->
  hard_vote self predictions selected = hard_vote self predictions selected' /\
  soft_vote probabilities selected = soft_vote probabilities selected'.
Proof.
  intros H. pose proof (Forall2_permutation_sym H) as H'. split.
  - unfold hard_vote. destruct predictions as [P|]; [|reflexivity]. simpl.
    destruct (take_selected P selected) as [votes|] eqn:E.
    + destruct (take_selected_permutation P H E) as (votes' & -> & Hp).
      simpl. f_equal.
      change (map vote_proba (map (histogram (n_classes_ self)) votes)
              = map vote_proba (map (histogram (n_classes_ self)) votes')).
      f_equal. eapply map_related; [|exact Hp].
      intros; now apply histogram_permutation.
    + destruct (take_selected P selected') as [votes'|] eqn:E';
        [|reflexivity].
      destruct (take_selected_permutation P H' E') as (votes & Hv & _).
      congruence.
  - unfold soft_vote. destruct probabilities as [P|]; [|reflexivity]. simpl.
    destruct (take_selected P selected) as [ens|] eqn:E.
    + destruct (take_selected_permutation P H E) as (ens' & -> & Hp).
      simpl. f_equal. eapply map_related; [|exact Hp].
      intros; now apply np_mean_permutation.
    + destruct (take_selected P selected') as [ens'|] eqn:E';
        [|reflexivity].
      destruct (take_selected_permutation P H' E') as (ens & Hv & _).
      congruence.
Qed.

Lemma vote_ignores_selection_order_witness :
  hard_vote demo (Some [[0; 1; 0]]%Z) [[0; 2]%nat]
  = hard_vote demo (Some [[0; 1; 0]]%Z) [[2; 0]%nat] /\
  soft_vote (Some [[[1 / 4; 3 / 4]; [1; 0]; [3 / 4; 1 / 4]]]) [[0; 2]%nat]
  = soft_vote (Some [[[1 / 4; 3 / 4]; [1; 0]; [3 / 4; 1 / 4]]]) [[2; 0]%nat].
Proof.
  apply (@vote_ignores_selection_order demo (Some [[0; 1; 0]]%Z)
           (Some [[[1 / 4; 3 / 4]; [1; 0]; [3 / 4; 1 / 4]]])
           [[0; 2]%nat] [[2; 0]%nat]).
  constructor; [apply perm_swap | constructor].
Defined.

(** ** Selecting the whole pool *)

Lemma map_nth_seq {A} (l : list A) d :
  map (fun i => nth i l d) (seq 0 (length l)) = l.
Proof.
  induction l as [|a l IH]; simpl; [reflexivity|].
  f_equal. rewrite <- seq_shift, map_map. exact IH.
Qed.

Lemma mapM_nth_error {A} (row : list A) sel d :
  Forall (fun i => (i < length row)%nat) sel ->
  mapM (nth_error row) sel = Some (map (fun i => nth i row d) sel).
Proof.
  induction 1 as [|i sel Hi Hsel IH]; simpl; [reflexivity|].
  rewrite (nth_error_nth' row d Hi), IH. reflexivity.
Qed.

(** Reading a row at every position once gives the row up to order. *)
Lemma gather_all {A} (row : list A) sel d :
  Permutation sel (seq 0 (length row)) ->
  mapM (nth_error row) sel = Some (map (fun i => nth i row d) sel) /\
  Permutation (map (fun i => nth i row d) sel) row.
Proof.
  intros Hp. split.
  - apply mapM_nth_error, Forall_forall. intros i Hi.
    apply (Permutation_in _ Hp), in_seq in Hi. lia.
  - eapply Permutation_trans;
      [apply Permutation_map, Hp | rewrite map_nth_seq; reflexivity].
Qed.

Section WholePool.

Variable argsort : list R -> list nat.
Hypothesis argsort_ok : argsort_spec argsort.

(** X20.  When [N] is at least the number of classifiers, hard voting is the
    plain vote of the whole pool: the competences have no say. *)
Theorem whole_pool_is_plain_vote (self : DESMI)
    (P : list (list Z))
    (probabilities : option (list (list (list R))))
    (competence_region : list (list Z))
    (distances : option (list (list R)))
    (DFP_mask : option (list (list R)))
    (N : Z) (accuracy : list (list R)) :
  voting self = "hard"%string ->
  N_ self = Some N ->
  (0 <= N)%Z ->
  masked_competence self competence_region distances DFP_mask
    = Some accuracy ->
  Forall2 (fun a p => length a = length p /\ (length p <= Z.to_nat N)%nat)
          accuracy P ->
  predict_proba_with_ds argsort self (Some P) probabilities competence_region
    distances DFP_mask
  = Some (map vote_proba (sum_votes_per_class P (n_classes_ self))).
Proof.
  intros Hv HN Hpos Hacc Hshape.
  unfold predict_proba_with_ds, selected_classifiers.
  rewrite Hacc. simpl. rewrite (select_eq _ _ _ HN). simpl.
  rewrite Hv. simpl. unfold hard_vote. simpl.
  set (selected := map (fun row => slice_to N (rev (argsort row))) accuracy).
  assert (Hsel : Forall2 (fun (p : list Z) sel =>
                            Permutation sel (seq 0 (length p)))
                         P selected).
  { unfold selected. clear - Hshape Hpos argsort_ok.
    induction Hshape as [|a p accuracy P [Hl Hn] Hrest IH]; simpl;
      constructor; [|exact IH].
    rewrite slice_to_nonneg by assumption.
    rewrite firstn_all2
      by (rewrite length_rev, (argsort_length argsort_ok); lia).
    rewrite <- Permutation_rev, <- Hl. apply argsort_ok. }
  assert (Htake : take_selected P selected
                  = Some (zip_with (fun row sel =>
                                      map (fun i => nth i row 0%Z) sel)
                                   P selected)).
  { unfold take_selected. apply broadcast_zip.
    eapply Forall2_impl; [|exact Hsel]. intros p sel Hp. simpl.
    apply (gather_all p 0%Z Hp). }
  rewrite Htake. simpl. f_equal.
  change (map vote_proba
            (map (histogram (n_classes_ self))
               (zip_with (fun row sel => map (fun i => nth i row 0%Z) sel)
                  P selected))
          = map vote_proba (map (histogram (n_classes_ self)) P)).
  f_equal. clear Htake Hshape.
  induction Hsel as [|p sel P selected' Hp Hrest IH]; simpl; [reflexivity|].
  rewrite IH. f_equal. apply histogram_permutation.
  apply (gather_all p 0%Z Hp).
Qed.

End WholePool.

Lemma whole_pool_is_plain_vote_witness :
  predict_proba_with_ds np_argsort (duo "hard") (Some [[1; 0]]%Z) None
    [[0; 1]]%Z None None
  = Some (map vote_proba
            (sum_votes_per_class [[1; 0]]%Z (n_classes_ (duo "hard")))).
Proof.
  destruct (duo_competence "hard") as [c Hc].
  apply (@whole_pool_is_plain_vote np_argsort np_argsort_spec (duo "hard")
           [[1; 0]]%Z None [[0; 1]]%Z None None 2%Z [[c; c]]).
  - reflexivity.
  - reflexivity.
  - lia.
  - unfold masked_competence. rewrite Hc. reflexivity.
  - repeat constructor.
Defined.

(** ** What a successful parameter check leaves behind *)

Lemma validate_success base pool self :
  snd (_validate_parameters base pool self) = None ->
  base = None /\
  (0 < py_int (INR (n_classifiers_ self) * pct_accuracy self))%Z /\
  0 < pct_accuracy self <= 1 /\
  _validate_parameters base pool self =
  (mkDESMI (DSEL_target_ self) (DSEL_processed_ self) (k_ self)
     (n_classifiers_ self) (n_classes_ self) (pct_accuracy self)
     (alpha self) (voting self) (DFP self)
     (Some (py_int (INR (n_classifiers_ self) * pct_accuracy self))),
   None).
Proof.
  unfold _validate_parameters. destruct base as [e|]; [discriminate|].
  cbn [N_ alpha pct_accuracy voting].
  destruct (Z.leb_spec
              (py_int (INR (n_classifiers_ self) * pct_accuracy self)) 0);
    [discriminate|].
  destruct (Rleb (pyval (alpha self)) 0); [discriminate|].
  destruct (negb (is_float (alpha self))); [discriminate|].
  destruct (Rleb (pct_accuracy self) 0 || Rltb 1 (pct_accuracy self)) eqn:Hp;
    [discriminate|].
  apply orb_false_iff in Hp as [Hp1 Hp2].
  assert (Hpct : 0 < pct_accuracy self <= 1).
  { split.
    - destruct (Rle_dec (pct_accuracy self) 0) as [Hle|]; [|lra].
      apply Rleb_true in Hle. congruence.
    - destruct (Rlt_dec 1 (pct_accuracy self)) as [Hlt|]; [|lra].
      apply Rltb_true in Hlt. congruence. }
  destruct (negb _); [discriminate|].
  destruct (String.eqb (voting self) "soft"); cbn [snd]; intros Hs.
  - rewrite Hs. auto.
  - auto.
Qed.

(** X21.  After a successful check the stored [N_] is at least 1 and at
    most the number of classifiers. *)
Theorem validated_selection_size (base_check : option exn)
    (pool_has_proba : bool) (self : DESMI) :
  snd (_validate_parameters base_check pool_has_proba self) = None ->
  exists N,
    N_ (fst (_validate_parameters base_check pool_has_proba self)) = Some N /\
    (1 <= N <= Z.of_nat (n_classifiers_ self))%Z.
Proof.
  intros H. destruct (validate_success _ _ _ H) as (_ & Hn & Hpct & ->).
  eexists. split; [reflexivity|].
  destruct (py_int_floor (INR (n_classifiers_ self) * pct_accuracy self))
    as [[Hle _]|[_ Hf]]; [lia|].
  rewrite Hf in *. split; [lia|].
  rewrite <- (ZfloorZ (Z.of_nat (n_classifiers_ self))).
  apply Zfloor_le. rewrite <- INR_IZR_INZ.
  pose proof (pos_INR (n_classifiers_ self)). nra.
Qed.

Lemma configured_passes :
  snd (_validate_parameters None true (configured (PyFloat (9 / 10)) "hard"))
  = None.
Proof.
  unfold _validate_parameters.
  rewrite (proj1 (configured_selection_size _ _)).
  cbn [alpha pct_accuracy voting configured pyval is_float negb Z.leb
       Z.compare].
  unfold Rleb, Rltb. decide_reals. reflexivity.
Qed.

Lemma validated_selection_size_witness :
  exists N,
    N_ (fst (_validate_parameters None true
               (configured (PyFloat (9 / 10)) "hard"))) = Some N /\
    (1 <= N <= Z.of_nat (n_classifiers_
                           (configured (PyFloat (9 / 10)) "hard")))%Z.
Proof.
  apply (@validated_selection_size None true
           (configured (PyFloat (9 / 10)) "hard")).
  exact configured_passes.
Defined.

Section ValidatedSelection.

Variable argsort : list R -> list nat.
Hypothesis argsort_ok : argsort_spec argsort.

(** X22.  What the check stores is what [select] needs: on competences with
    one column per classifier, the checked estimator selects the [N] most
    competent classifiers of every sample. *)
Theorem validated_estimator_selects (base_check : option exn)
    (pool_has_proba : bool) (self : DESMI) (accuracy : list (list R)) :
  snd (_validate_parameters base_check pool_has_proba self) = None ->
  rect (n_classifiers_ self) accuracy ->
  exists N selected,
    N_ (fst (_validate_parameters base_check pool_has_proba self)) = Some N /\
    (1 <= N)%Z /\
    select argsort (fst (_validate_parameters base_check pool_has_proba self))
      (Arr2 accuracy) = Some selected /\
    Forall2 (top_selection (Z.to_nat N)) accuracy selected.
Proof.
  intros H Hrect.
  destruct (validate_success _ _ _ H) as (_ & Hn & Hpct & Heq).
  set (N := py_int (INR (n_classifiers_ self) * pct_accuracy self)) in *.
  assert (Hbound : (N <= Z.of_nat (n_classifiers_ self))%Z).
  { subst N.
    destruct (py_int_floor (INR (n_classifiers_ self) * pct_accuracy self))
      as [[Hle _]|[_ Hf]]; [lia|].
    rewrite Hf. rewrite <- (ZfloorZ (Z.of_nat (n_classifiers_ self))).
    apply Zfloor_le. rewrite <- INR_IZR_INZ.
    pose proof (pos_INR (n_classifiers_ self)). nra. }
  rewrite Heq. cbn [fst].
  exists N. eexists. split; [reflexivity|]. split; [lia|].
  split; [apply select_eq; reflexivity|].
  simpl. clear Heq H.
  induction Hrect as [|row rows Hrow Hrows IH]; simpl; constructor;
    [|exact IH].
  rewrite slice_to_nonneg by lia.
  apply (select_reference_top argsort_ok). lia.
Qed.

End ValidatedSelection.

Lemma validated_estimator_selects_witness :
  exists N selected,
    N_ (fst (_validate_parameters None true
               (configured (PyFloat (9 / 10)) "hard"))) = Some N /\
    (1 <= N)%Z /\
    select np_argsort
      (fst (_validate_parameters None true
              (configured (PyFloat (9 / 10)) "hard")))
      (Arr2 [repeat (1 / 2) 10]) = Some selected /\
    Forall2 (top_selection (Z.to_nat N)) [repeat (1 / 2) 10] selected.
Proof.
  apply (@validated_estimator_selects np_argsort np_argsort_spec None true
           (configured (PyFloat (9 / 10)) "hard") [repeat (1 / 2) 10]).
  - exact configured_passes.
  - repeat constructor.
Defined.


(** ** The constructor's defaults *)

Lemma default_selection_size (n : nat) :
  ((n < 3)%nat -> (py_int (INR n * (4 / 10)) <= 0)%Z) /\
  ((3 <= n)%nat -> (0 < py_int (INR n * (4 / 10)))%Z).
Proof.
  pose proof (Zfloor_bound (INR n * (4 / 10))) as Hb.
  split; intros Hn.
  - destruct (py_int_floor (INR n * (4 / 10))) as [[H _]|[H0 Hf]];
      [exact H|].
    assert (Hle : INR n <= INR 2) by (apply le_INR; lia). simpl in Hle.
    assert (Hz : (Zfloor (INR n * (4 / 10)) < 1)%Z) by (apply lt_IZR; lra).
    lia.
  - destruct (py_int_floor (INR n * (4 / 10))) as [[_ H]|[H0 _]];
      [|exact H0].
    assert (Hge : INR 3 <= INR n) by (apply le_INR; lia). simpl in Hge.
    assert (Hz : (1 <= Zfloor (INR n * (4 / 10)))%Z)
      by (apply Zfloor_lub; simpl; lra).
    lia.
Qed.

(** X24.  With the constructor's defaults [pct_accuracy=0.4], [alpha=0.9] and
    [voting='hard'], the check raises [ValueError] on a pool of fewer than
    three classifiers and passes on any larger one. *)
Theorem default_parameters_need_three_classifiers (pool_has_proba : bool)
    (self : DESMI) :
  pct_accuracy self = 4 / 10 ->
  alpha self = PyFloat (9 / 10) ->
  voting self = "hard"%string ->
  ((n_classifiers_ self < 3)%nat ->
   snd (_validate_parameters None pool_has_proba self) = Some ValueError) /\
  ((3 <= n_classifiers_ self)%nat ->
   snd (_validate_parameters None pool_has_proba self) = None).
Proof.
  intros Hp Ha Hv.
  destruct (default_selection_size (n_classifiers_ self)) as [Hsmall Hbig].
  unfold _validate_parameters. cbn [N_ alpha pct_accuracy voting].
  rewrite Hp, Ha, Hv. split; intros Hn.
  - destruct (Z.leb_spec (py_int (INR (n_classifiers_ self) * (4 / 10))) 0)
      as [_|Hgt]; [reflexivity|].
    specialize (Hsmall Hn). lia.
  - destruct (Z.leb_spec (py_int (INR (n_classifiers_ self) * (4 / 10))) 0)
      as [Hle|_]; [specialize (Hbig Hn); lia|].
    cbn [pyval is_float negb]. unfold Rleb, Rltb.
    decide_reals. reflexivity.
Qed.

Lemma default_parameters_need_three_classifiers_witness :
  snd (_validate_parameters None true (configured (PyFloat (9 / 10)) "hard"))
  = None.
Proof.
  apply (@default_parameters_need_three_classifiers true
           (configured (PyFloat (9 / 10)) "hard")).
  - reflexivity.
  - reflexivity.
  - reflexivity.
  - simpl. lia.
Defined.

(** * Worked examples *)

(** The scenario of the specification: labels [0,0,0,1] give class
    frequencies [3,1], and the neighbours 0 and 3 get the normalised raw
    weights of the frequencies 3 and 1. *)
Example class_frequency_demo : bincount [0; 0; 0; 1]%Z = Some [3; 1]%nat.
Proof. reflexivity. Qed.

Example neighbor_weights_demo :
  neighbor_weights demo [[0; 3]]%Z
  = Some [normalize_row [1 / (1 + exp (9 / 10 * INR 3));
                         1 / (1 + exp (9 / 10 * INR 1))]].
Proof.
  change (neighbor_weights demo [[0; 3]]%Z)
    with (Some [normalize_row [raw_weight demo 3; raw_weight demo 1]]).
  rewrite !raw_weight_finite by (apply exp_small; simpl; lra).
  reflexivity.
Qed.

(** With 1200 samples in the class of every neighbour, [np.exp] overflows
    and the competence of a classifier that is right on every neighbour
    is 0. *)
Example competence_at_overflow :
  estimate_competence crowded [[0; 1200]]%Z None None
  = Some [[1 * 0 + (1 * 0 + 0); 1 * 0 + (1 * 0 + 0)]].
Proof.
  unfold estimate_competence. rewrite crowded_weights.
  assert (E : np_take (DSEL_processed_ crowded) [[0; 1200]]%Z
              = Some [[[true; true]; [true; true]]])
    by (vm_compute; reflexivity).
  rewrite E. reflexivity.
Qed.

(** Classifier 2 is right on both neighbours, classifier 1 on none. *)
Example competence_demo :
  exists w0 w3,
    normalize_row [raw_weight demo 3; raw_weight demo 1] = [w0; w3] /\
    estimate_competence demo [[0; 3]]%Z None None
    = Some [[1 * w0 + (0 * w3 + 0); 0 * w0 + (0 * w3 + 0);
             1 * w0 + (1 * w3 + 0)]].
Proof. eexists. eexists. split; reflexivity. Qed.

(** A negative index counts from the end; one past the end is an error. *)
Example np_index_wraps :
  np_index [10; 20; 30]%Z (-1) = Some 30%Z /\
  np_index [10; 20; 30]%Z 3 = None /\
  np_index [10; 20; 30]%Z (-4) = None.
Proof. repeat split. Qed.

Example np_argsort_demo : np_argsort [3 / 10; 9 / 10; 1 / 2] = [0; 2; 1]%nat.
Proof. unfold np_argsort. simpl. decide_reals. reflexivity. Qed.

Example select_demo :
  select np_argsort demo (Arr2 [[3 / 10; 9 / 10; 1 / 2]])
  = Some [[1; 2]%nat].
Proof. unfold select. simpl. rewrite np_argsort_demo. reflexivity. Qed.

(** Hard voting with predictions [0,1,0] and the classifiers 0 and 2
    selected: both vote for class 0. *)
Example hard_vote_demo :
  hard_vote demo (Some [[0; 1; 0]]%Z) [[0; 2]%nat] = Some [[Fin 1; Fin 0]].
Proof.
  unfold hard_vote. simpl. unfold vote_proba, np_true_divide. simpl.
  repeat f_equal; lra.
Qed.

(** Without a vote in range the row is [nan], and [argmax] answers 0. *)
Example hard_vote_out_of_range :
  hard_vote demo (Some [[7; 1; 9]]%Z) [[0; 2]%nat] = Some [[NaN; NaN]] /\
  np_argmax [NaN; NaN] = Some 0%nat.
Proof. split; reflexivity. Qed.

Example soft_vote_demo :
  soft_vote (Some [[[1 / 4; 3 / 4]; [1; 0]; [3 / 4; 1 / 4]]]) [[0; 2]%nat]
  = Some [[Fin (1 / 2); Fin (1 / 2)]].
Proof.
  unfold soft_vote. simpl. unfold np_mean. simpl.
  repeat f_equal; lra.
Qed.

Example np_argmax_first_of_ties :
  np_argmax [Fin (1 / 4); Fin (1 / 2); Fin (1 / 2)] = Some 1%nat.
Proof. simpl. unfold np_le. decide_reals. reflexivity. Qed.

(** A positive integer [alpha] is a type error, a zero one a value error
    before its type is looked at. *)
Example integer_alpha_type_error :
  snd (_validate_parameters None true (configured (PyInt 1) "hard"))
  = Some TypeError.
Proof.
  unfold _validate_parameters.
  rewrite (proj1 (configured_selection_size _ _)).
  cbn [alpha pct_accuracy voting configured pyval is_float negb Z.leb
       Z.compare].
  unfold Rleb. decide_reals. reflexivity.
Qed.

(** The default configuration passes and stores [N = 4]. *)
Example default_configuration_passes :
  _validate_parameters None true (configured (PyFloat (9 / 10)) "hard")
  = ({| DSEL_target_ := [0; 1]%Z;
        DSEL_processed_ := [repeat true 10; repeat true 10];
        k_ := 7; n_classifiers_ := 10; n_classes_ := 2;
        pct_accuracy := 4 / 10; alpha := PyFloat (9 / 10);
        voting := "hard"; DFP := false; N_ := Some 4%Z |}, None).
Proof.
  unfold _validate_parameters.
  rewrite (proj1 (configured_selection_size _ _)).
  cbn [alpha pct_accuracy voting configured pyval is_float negb Z.leb
       Z.compare].
  unfold Rleb, Rltb. decide_reals. reflexivity.
Qed.
